(** * WeatherCast: the request cache of [api.ts] and the Zustand store of [store.ts]

    A shallow embedding of the client-side data-access layer (time-bounded
    cache, in-flight request table, error translation) and of the global
    state container (location-selection policy), followed by the properties
    stated about them. *)

From Stdlib Require Import PrimFloat Floats ZArith String Ascii Bool Lia.
From stdpp Require Import gmap list fin_maps.
Set Warnings "-inexact-float".

(* ===================================================================== *)
(** ** JavaScript values *)
(* ===================================================================== *)

(** A JavaScript string is a sequence of UTF-16 code units; [.length]
    counts them. *)
Abbreviation jsstring := (list N).

(** An ASCII literal as a JavaScript string. *)
Fixpoint lit (s : string) : jsstring :=
  match s with
  | EmptyString => []
  | String a rest => N_of_ascii a :: lit rest
  end.

(** Truthiness of a string: only the empty string is falsy. *)
Definition truthy (s : jsstring) : bool :=
  match s with [] => false | _ :: _ => true end.

(** [a || b] on strings. *)
Definition js_or (a b : jsstring) : jsstring := if truthy a then a else b.

(** White space and line terminators stripped by [String.prototype.trim]. *)
Definition isWhiteSpace (c : N) : bool :=
  ((9 <=? c) && (c <=? 13) || (c =? 32) || (c =? 160) || (c =? 5760)
   || (8192 <=? c) && (c <=? 8202) || (c =? 8232) || (c =? 8233)
   || (c =? 8239) || (c =? 8287) || (c =? 12288) || (c =? 65279))%N.

Fixpoint trimStart (s : jsstring) : jsstring :=
  match s with
  | [] => []
  | c :: rest => if isWhiteSpace c then trimStart rest else s
  end.

Definition trimEnd (s : jsstring) : jsstring := rev (trimStart (rev s)).

Definition trim (s : jsstring) : jsstring := trimEnd (trimStart s).

Fixpoint startsWith (s pattern : jsstring) : bool :=
  match pattern, s with
  | [], _ => true
  | _ :: _, [] => false
  | a :: pattern', b :: s' => (a =? b)%N && startsWith s' pattern'
  end.

(** [s.includes(pattern)]. *)
Fixpoint includes (s pattern : jsstring) : bool :=
  startsWith s pattern
  || match s with [] => false | _ :: s' => includes s' pattern end.

(** [a > b] on numbers (IEEE 754 binary64; false when either side is NaN). *)
Definition js_gt (a b : float) : bool := PrimFloat.ltb b a.

(* ===================================================================== *)
(** ** Value objects ([@/types/weather]) *)
(* ===================================================================== *)

(** A provider response body, opaque to this layer. *)
Abbreviation Payload := jsstring.

Record Coordinates := { lat : float; lon : float }.

Record WeatherData := {
  currentWeather : Payload;
  forecast : Payload;
  airPollution : Payload
}.

Record City := {
  name : jsstring;
  country : jsstring;
  city_lat : float;
  city_lon : float
}.

(* ===================================================================== *)
(** ** The store ([src/lib/store.ts]) *)
(* ===================================================================== *)

(** [DEFAULT_COORDINATES] is imported from [@/constants]. *)
Class Constants := { DEFAULT_COORDINATES : Coordinates }.

Inductive UnitSystem := metric | imperial.

Record WeatherState := {
  coordinates : Coordinates;
  weatherData : option WeatherData;
  unit' : UnitSystem;
  isLoading : bool;
  error : option jsstring;
  showLocationDialog : bool;
  isManualSelection : bool;
  geolocationEnabled : bool;
  hasInitialLoad : bool;
  searchQuery : jsstring;
  citySuggestions : list City;
  isSearching : bool
}.

(** One [key: value] pair of the object literal handed to Zustand's [set]. *)
Inductive Field :=
| coordinates_ (v : Coordinates)
| weatherData_ (v : option WeatherData)
| unit_ (v : UnitSystem)
| isLoading_ (v : bool)
| error_ (v : option jsstring)
| showLocationDialog_ (v : bool)
| isManualSelection_ (v : bool)
| geolocationEnabled_ (v : bool)
| hasInitialLoad_ (v : bool)
| searchQuery_ (v : jsstring)
| citySuggestions_ (v : list City)
| isSearching_ (v : bool).

Definition assign (f : Field) (s : WeatherState) : WeatherState :=
  let '{| coordinates := c; weatherData := w; unit' := u; isLoading := l;
          error := e; showLocationDialog := d; isManualSelection := m;
          geolocationEnabled := g; hasInitialLoad := h; searchQuery := q;
          citySuggestions := cs; isSearching := sr |} := s in
  match f with
  | coordinates_ v => Build_WeatherState v w u l e d m g h q cs sr
  | weatherData_ v => Build_WeatherState c v u l e d m g h q cs sr
  | unit_ v => Build_WeatherState c w v l e d m g h q cs sr
  | isLoading_ v => Build_WeatherState c w u v e d m g h q cs sr
  | error_ v => Build_WeatherState c w u l v d m g h q cs sr
  | showLocationDialog_ v => Build_WeatherState c w u l e v m g h q cs sr
  | isManualSelection_ v => Build_WeatherState c w u l e d v g h q cs sr
  | geolocationEnabled_ v => Build_WeatherState c w u l e d m v h q cs sr
  | hasInitialLoad_ v => Build_WeatherState c w u l e d m g v q cs sr
  | searchQuery_ v => Build_WeatherState c w u l e d m g h v cs sr
  | citySuggestions_ v => Build_WeatherState c w u l e d m g h q v sr
  | isSearching_ v => Build_WeatherState c w u l e d m g h q cs v
  end.

(** Zustand's [set(partial)]: the listed fields are merged into the state,
    the others are kept. *)
Definition set (partial : list Field) (s : WeatherState) : WeatherState :=
  fold_left (fun acc f => assign f acc) partial s.

(** All the data fields of a state object, as an object literal. *)
Definition fieldsOf (s : WeatherState) : list Field :=
  [ coordinates_ (coordinates s); weatherData_ (weatherData s);
    unit_ (unit' s); isLoading_ (isLoading s); error_ (error s);
    showLocationDialog_ (showLocationDialog s);
    isManualSelection_ (isManualSelection s);
    geolocationEnabled_ (geolocationEnabled s);
    hasInitialLoad_ (hasInitialLoad s); searchQuery_ (searchQuery s);
    citySuggestions_ (citySuggestions s); isSearching_ (isSearching s) ].

Section Store.
Context `{Constants}.

Definition initialState : WeatherState := {|
  coordinates := DEFAULT_COORDINATES;
  weatherData := None;
  unit' := metric;
  isLoading := false;
  error := None;
  showLocationDialog := true;
  isManualSelection := false;
  geolocationEnabled := false;
  hasInitialLoad := false;
  searchQuery := [];
  citySuggestions := [];
  isSearching := false
|}.

(** Simple setters. *)
Definition setCoordinates (coords : Coordinates) := set [coordinates_ coords].
Definition setWeatherData (data : option WeatherData) := set [weatherData_ data].
Definition setLoading (loading : bool) := set [isLoading_ loading].
Definition setError (err : option jsstring) := set [error_ err].
Definition setLocationDialog (show : bool) := set [showLocationDialog_ show].
Definition setManualSelection (manual : bool) := set [isManualSelection_ manual].
Definition setGeolocationEnabled (enabled : bool) := set [geolocationEnabled_ enabled].
Definition setInitialLoad (loaded : bool) := set [hasInitialLoad_ loaded].
Definition setSearchQuery (query : jsstring) := set [searchQuery_ query].
Definition setCitySuggestions (suggestions : list City) := set [citySuggestions_ suggestions].
Definition setSearching (searching : bool) := set [isSearching_ searching].

Definition updateLocation (lat' lon' : float) (s : WeatherState) : WeatherState :=
  let newCoords := {| lat := lat'; lon := lon' |} in
  let current := coordinates s in
  if js_gt (PrimFloat.abs (lat current - lat')) 0.000001
     || js_gt (PrimFloat.abs (lon current - lon')) 0.000001
  then set [ coordinates_ newCoords; isManualSelection_ true;
             geolocationEnabled_ false; hasInitialLoad_ true;
             error_ None ] s
  else s.

Definition triggerCurrentLocation (s : WeatherState) : WeatherState :=
  set [ isManualSelection_ false; geolocationEnabled_ true;
        hasInitialLoad_ true; searchQuery_ []; citySuggestions_ [];
        error_ None ] s.

Definition handleLocationPermission (allow : bool) (s : WeatherState) : WeatherState :=
  set [ showLocationDialog_ false; geolocationEnabled_ allow;
        isManualSelection_ (negb allow); hasInitialLoad_ true;
        coordinates_ (if allow then coordinates s else DEFAULT_COORDINATES) ] s.

Definition reset (s : WeatherState) : WeatherState := set (fieldsOf initialState) s.

(** The action set exposed by the store. *)
Inductive Action :=
| SetCoordinates (coords : Coordinates)
| SetWeatherData (data : option WeatherData)
| SetLoading (loading : bool)
| SetError (err : option jsstring)
| SetLocationDialog (show : bool)
| SetManualSelection (manual : bool)
| SetGeolocationEnabled (enabled : bool)
| SetInitialLoad (loaded : bool)
| SetSearchQuery (query : jsstring)
| SetCitySuggestions (suggestions : list City)
| SetSearching (searching : bool)
| UpdateLocation (lat' lon' : float)
| TriggerCurrentLocation
| HandleLocationPermission (allow : bool)
| Reset.

Definition dispatch (a : Action) : WeatherState -> WeatherState :=
  match a with
  | SetCoordinates coords => setCoordinates coords
  | SetWeatherData data => setWeatherData data
  | SetLoading loading => setLoading loading
  | SetError err => setError err
  | SetLocationDialog show => setLocationDialog show
  | SetManualSelection manual => setManualSelection manual
  | SetGeolocationEnabled enabled => setGeolocationEnabled enabled
  | SetInitialLoad loaded => setInitialLoad loaded
  | SetSearchQuery query => setSearchQuery query
  | SetCitySuggestions suggestions => setCitySuggestions suggestions
  | SetSearching searching => setSearching searching
  | UpdateLocation lat' lon' => updateLocation lat' lon'
  | TriggerCurrentLocation => triggerCurrentLocation
  | HandleLocationPermission allow => handleLocationPermission allow
  | Reset => reset
  end.

(** The state after a sequence of actions, first action first. *)
Definition runActions (acts : list Action) (s : WeatherState) : WeatherState :=
  fold_left (fun acc a => dispatch a acc) acts s.

(** The two setters that write [true] into one selection flag without
    touching the other. *)
Definition raisesFlagAlone (a : Action) : bool :=
  match a with
  | SetManualSelection true | SetGeolocationEnabled true => true
  | _ => false
  end.

(** The selection flags are not both raised. *)
Definition exclusive (s : WeatherState) : Prop :=
  isManualSelection s && geolocationEnabled s = false.
End Store.

(* ===================================================================== *)
(** ** The data-access layer ([api.ts]) *)
(* ===================================================================== *)

(** *** Errors *)

(** What [handleError] inspects of a thrown value: whether it is an
    [Error] instance, its [name], whether [axios.isAxiosError] holds of
    it, and the two messages ([response?.data?.message], absent as [None],
    and [message]). *)
Record RawError := {
  instanceofError : bool;
  errName : jsstring;
  isAxiosError : bool;
  responseDataMessage : option jsstring;
  errMessage : jsstring
}.

(** [new Error(message)]. *)
Definition newError (message : jsstring) : RawError := {|
  instanceofError := true;
  errName := lit "Error";
  isAxiosError := false;
  responseDataMessage := None;
  errMessage := message
|}.

(** [error instanceof Error && error.name === 'AbortError']. *)
Definition isAbortError (err : RawError) : bool :=
  instanceofError err && bool_decide (errName err = lit "AbortError").

Definition handleError (err : RawError) : RawError :=
  if isAbortError err then err
  else if isAxiosError err then
    let message :=
      js_or (default [] (responseDataMessage err))
            (js_or (errMessage err) (lit "API request failed")) in
    newError message
  else newError (lit "An unexpected error occurred").

(** The error kinds, one per branch of [handleError]. *)
Inductive ErrorKind := Cancelled | TransportFailure | Unexpected.

Definition errorKind (err : RawError) : ErrorKind :=
  if isAbortError err then Cancelled
  else if isAxiosError err then TransportFailure
  else Unexpected.

(** *** Promises, cache entries, requests *)

Definition CACHE_DURATION : Z := 5 * 60 * 1000.

Record CacheEntry (A : Type) := { data : A; timestamp : Z }.
Arguments data {A} _.
Arguments timestamp {A} _.

(** Identity of a promise object and of an [AbortSignal] object. *)
Abbreviation PromiseId := nat.
Abbreviation Signal := nat.

Inductive PromiseState (A : Type) :=
| Pending
| Fulfilled (value : A)
| Rejected (reason : RawError).
Arguments Pending {A}.
Arguments Fulfilled {A} _.
Arguments Rejected {A} _.

(** The [request] promise built by a cache miss, with the [cacheKey] its
    handlers close over and the signal handed to its HTTP calls. *)
Record Promise (A : Type) := {
  cacheKey : jsstring;
  signal : option Signal;
  state : PromiseState A
}.
Arguments cacheKey {A} _.
Arguments signal {A} _.
Arguments state {A} _.

Definition settled {A} (st : PromiseState A) (p : Promise A) : Promise A :=
  {| cacheKey := cacheKey p; signal := signal p; state := st |}.

Definition isPending {A} (st : PromiseState A) : bool :=
  match st with Pending => true | _ => false end.

(** The HTTP calls made through [this.api.get]. *)
Inductive HttpGet :=
| GetWeather (lat' lon' : float) (sig : option Signal)
| GetForecast (lat' lon' : float) (sig : option Signal)
| GetAirPollution (lat' lon' : float) (sig : option Signal)
| GetFind (q : jsstring) (sig : option Signal).

(** One element of [response.data.list] of the [/find] endpoint. *)
Record ProviderCity := {
  pc_name : jsstring;
  pc_sys_country : jsstring;
  pc_coord_lat : float;
  pc_coord_lon : float
}.

(** The module-level tables of [api.ts], the promise objects they refer
    to, and the HTTP calls issued so far. *)
Record ApiState := {
  weatherCache : gmap jsstring (CacheEntry WeatherData);
  cityCache : gmap jsstring (CacheEntry (list City));
  pendingWeatherRequests : gmap jsstring PromiseId;
  pendingCityRequests : gmap jsstring PromiseId;
  weatherPromises : gmap PromiseId (Promise WeatherData);
  cityPromises : gmap PromiseId (Promise (list City));
  nextPromise : PromiseId;
  httpLog : list HttpGet
}.

Definition initialApi : ApiState := {|
  weatherCache := ∅; cityCache := ∅;
  pendingWeatherRequests := ∅; pendingCityRequests := ∅;
  weatherPromises := ∅; cityPromises := ∅;
  nextPromise := 0; httpLog := []
|}.

(** How a call of an [async] method ends for its caller. [Originator] is
    the call that built the request and awaits it inside [try]/[catch];
    [Joined] is a call that returned the promise found in the pending
    table. *)
Inductive Role := Originator | Joined.

Inductive CallResult (A : Type) :=
| Returned (value : A)
| Awaits (request : PromiseId) (role : Role).
Arguments Returned {A} _.
Arguments Awaits {A} _ _.

Inductive Outcome (A : Type) :=
| Resolves (value : A)
| Throws (err : RawError).
Arguments Resolves {A} _.
Arguments Throws {A} _.

(** What a waiter of a promise receives once it has settled. *)
Definition delivered {A} (role : Role) (st : PromiseState A) : option (Outcome A) :=
  match st with
  | Pending => None
  | Fulfilled value => Some (Resolves value)
  | Rejected reason =>
      Some (Throws (match role with
                    | Originator => handleError reason
                    | Joined => reason
                    end))
  end.

Definition outcomeIn {A} (heap : gmap PromiseId (Promise A)) (r : CallResult A)
  : option (Outcome A) :=
  match r with
  | Returned value => Some (Resolves value)
  | Awaits request role => heap !! request ≫= (fun p => delivered role (state p))
  end.

(** [cached && Date.now() - cached.timestamp < CACHE_DURATION]. *)
Definition live {A} (now : Z) (cached : option (CacheEntry A)) : option A :=
  match cached with
  | Some c => if (now - timestamp c <? CACHE_DURATION)%Z then Some (data c) else None
  | None => None
  end.

(** *** The runtime the layer runs on

    [numberToString] is the conversion of a number inside a template
    literal; [abortReason] is the value with which the HTTP client rejects
    a call whose signal fires. *)
Class Runtime := {
  numberToString : float -> jsstring;
  abortReason : RawError
}.

Section Api.
Context `{Runtime}.

Definition weatherKey (lat' lon' : float) : jsstring :=
  lit "weather-" ++ numberToString lat' ++ lit "-" ++ numberToString lon'.

Definition cityKey (query : jsstring) : jsstring := lit "cities-" ++ query.

Definition fetchWeatherData (now : Z) (lat' lon' : float) (sig : option Signal)
    (s : ApiState) : CallResult WeatherData * ApiState :=
  let key := weatherKey lat' lon' in
  (* Check cache first *)
  match live now (weatherCache s !! key) with
  | Some cachedData => (Returned cachedData, s)
  | None =>
    (* Check for pending request *)
    match pendingWeatherRequests s !! key with
    | Some request => (Awaits request Joined, s)
    | None =>
      (* Create new request, store it as pending, await it *)
      let request := nextPromise s in
      (Awaits request Originator,
       {| weatherCache := weatherCache s;
          cityCache := cityCache s;
          pendingWeatherRequests := <[key := request]> (pendingWeatherRequests s);
          pendingCityRequests := pendingCityRequests s;
          weatherPromises :=
            <[request := {| cacheKey := key; signal := sig; state := Pending |}]>
              (weatherPromises s);
          cityPromises := cityPromises s;
          nextPromise := S request;
          httpLog := httpLog s ++ [ GetWeather lat' lon' sig;
                                    GetForecast lat' lon' sig;
                                    GetAirPollution lat' lon' sig ] |})
    end
  end.

(** All three calls of a pending weather request succeeded: the [then]
    handler assembles the data and caches it, and the awaiting call returns
    it. *)
Definition weatherFulfilled (now : Z) (request : PromiseId)
    (current fc air : Payload) (s : ApiState) : ApiState :=
  match weatherPromises s !! request with
  | Some p =>
    if isPending (state p) then
      let result := {| currentWeather := current; forecast := fc;
                       airPollution := air |} in
      {| weatherCache :=
           <[cacheKey p := {| data := result; timestamp := now |}]> (weatherCache s);
         cityCache := cityCache s;
         pendingWeatherRequests := pendingWeatherRequests s;
         pendingCityRequests := pendingCityRequests s;
         weatherPromises := <[request := settled (Fulfilled result) p]> (weatherPromises s);
         cityPromises := cityPromises s;
         nextPromise := nextPromise s;
         httpLog := httpLog s |}
    else s
  | None => s
  end.

(** One of the three calls of a pending weather request failed with
    [err]: [Promise.all] rejects with it and the [catch] block of the
    awaiting call runs. *)
Definition weatherRejected (request : PromiseId) (err : RawError)
    (s : ApiState) : ApiState :=
  match weatherPromises s !! request with
  | Some p =>
    if isPending (state p) then
      {| weatherCache := weatherCache s;
         cityCache := cityCache s;
         pendingWeatherRequests := delete (cacheKey p) (pendingWeatherRequests s);
         pendingCityRequests := pendingCityRequests s;
         weatherPromises := <[request := settled (Rejected err) p]> (weatherPromises s);
         cityPromises := cityPromises s;
         nextPromise := nextPromise s;
         httpLog := httpLog s |}
    else s
  | None => s
  end.

Definition searchCities (now : Z) (query : jsstring) (sig : option Signal)
    (s : ApiState) : CallResult (list City) * ApiState :=
  (* Minimum query length check *)
  if negb (truthy query) || (length (trim query) <? 3) then (Returned [], s)
  else
    let key := cityKey query in
    match live now (cityCache s !! key) with
    | Some cachedData => (Returned cachedData, s)
    | None =>
      match pendingCityRequests s !! key with
      | Some request => (Awaits request Joined, s)
      | None =>
        let request := nextPromise s in
        (Awaits request Originator,
         {| weatherCache := weatherCache s;
            cityCache := cityCache s;
            pendingWeatherRequests := pendingWeatherRequests s;
            pendingCityRequests := <[key := request]> (pendingCityRequests s);
            weatherPromises := weatherPromises s;
            cityPromises :=
              <[request := {| cacheKey := key; signal := sig; state := Pending |}]>
                (cityPromises s);
            nextPromise := S request;
            httpLog := httpLog s ++ [ GetFind query sig ] |})
      end
    end.

Definition toCity (c : ProviderCity) : City := {|
  name := pc_name c;
  country := pc_sys_country c;
  city_lat := pc_coord_lat c;
  city_lon := pc_coord_lon c
|}.

(** The [/find] call of a pending search succeeded with [response.data.list]. *)
Definition cityFulfilled (now : Z) (request : PromiseId)
    (responseList : list ProviderCity) (s : ApiState) : ApiState :=
  match cityPromises s !! request with
  | Some p =>
    if isPending (state p) then
      let cities := map toCity responseList in
      {| weatherCache := weatherCache s;
         cityCache := <[cacheKey p := {| data := cities; timestamp := now |}]> (cityCache s);
         pendingWeatherRequests := pendingWeatherRequests s;
         pendingCityRequests := pendingCityRequests s;
         weatherPromises := weatherPromises s;
         cityPromises := <[request := settled (Fulfilled cities) p]> (cityPromises s);
         nextPromise := nextPromise s;
         httpLog := httpLog s |}
    else s
  | None => s
  end.

(** The [/find] call of a pending search failed with [err]. *)
Definition cityRejected (request : PromiseId) (err : RawError)
    (s : ApiState) : ApiState :=
  match cityPromises s !! request with
  | Some p =>
    if isPending (state p) then
      {| weatherCache := weatherCache s;
         cityCache := cityCache s;
         pendingWeatherRequests := pendingWeatherRequests s;
         pendingCityRequests := delete (cacheKey p) (pendingCityRequests s);
         weatherPromises := weatherPromises s;
         cityPromises := <[request := settled (Rejected err) p]> (cityPromises s);
         nextPromise := nextPromise s;
         httpLog := httpLog s |}
    else s
  | None => s
  end.

(** The promises whose HTTP calls were handed the signal [sig]. *)
Definition carrying {A} (sig : Signal) (heap : gmap PromiseId (Promise A))
  : list PromiseId :=
  (map_to_list (filter (fun kv => signal kv.2 = Some sig) heap)).*1.

(** The signal [sig] fires: every call that carries it is rejected with
    [abortReason], so every request still pending on such calls fails. *)
Definition abortSignal (sig : Signal) (s : ApiState) : ApiState :=
  let s' := foldr (fun request acc => weatherRejected request abortReason acc)
                  s (carrying sig (weatherPromises s)) in
  foldr (fun request acc => cityRejected request abortReason acc)
        s' (carrying sig (cityPromises s)).

Definition clearCache (s : ApiState) : ApiState := {|
  weatherCache := ∅;
  cityCache := ∅;
  pendingWeatherRequests := ∅;
  pendingCityRequests := ∅;
  weatherPromises := weatherPromises s;
  cityPromises := cityPromises s;
  nextPromise := nextPromise s;
  httpLog := httpLog s
|}.

Definition clearCacheByPattern (pattern : jsstring) (s : ApiState) : ApiState := {|
  weatherCache := filter (fun kv => includes kv.1 pattern = false) (weatherCache s);
  cityCache := filter (fun kv => includes kv.1 pattern = false) (cityCache s);
  pendingWeatherRequests := pendingWeatherRequests s;
  pendingCityRequests := pendingCityRequests s;
  weatherPromises := weatherPromises s;
  cityPromises := cityPromises s;
  nextPromise := nextPromise s;
  httpLog := httpLog s
|}.

(** What can happen to the layer: a call of one of its methods, the
    settlement of a request by the network, or a signal firing. *)
Inductive Event :=
| CallFetchWeather (now : Z) (lat' lon' : float) (sig : option Signal)
| CallSearchCities (now : Z) (query : jsstring) (sig : option Signal)
| WeatherFulfilled (now : Z) (request : PromiseId) (current fc air : Payload)
| WeatherRejected (request : PromiseId) (err : RawError)
| CityFulfilled (now : Z) (request : PromiseId) (responseList : list ProviderCity)
| CityRejected (request : PromiseId) (err : RawError)
| Abort (sig : Signal)
| CallClearCache
| CallClearCacheByPattern (pattern : jsstring).

Definition step (e : Event) (s : ApiState) : ApiState :=
  match e with
  | CallFetchWeather now lat' lon' sig => (fetchWeatherData now lat' lon' sig s).2
  | CallSearchCities now query sig => (searchCities now query sig s).2
  | WeatherFulfilled now request current fc air =>
      weatherFulfilled now request current fc air s
  | WeatherRejected request err => weatherRejected request err s
  | CityFulfilled now request responseList => cityFulfilled now request responseList s
  | CityRejected request err => cityRejected request err s
  | Abort sig => abortSignal sig s
  | CallClearCache => clearCache s
  | CallClearCacheByPattern pattern => clearCacheByPattern pattern s
  end.

(** The state after a sequence of events, first event first. *)
Definition run (evs : list Event) (s : ApiState) : ApiState :=
  fold_left (fun acc e => step e acc) evs s.

Definition isClearCache (e : Event) : bool :=
  match e with CallClearCache => true | _ => false end.

(** [request] is a weather request for [key] that has not settled. *)
Definition weatherInFlight (s : ApiState) (request : PromiseId) (key : jsstring) : Prop :=
  exists p, weatherPromises s !! request = Some p
            /\ cacheKey p = key /\ state p = Pending.

Definition cityInFlight (s : ApiState) (request : PromiseId) (key : jsstring) : Prop :=
  exists p, cityPromises s !! request = Some p
            /\ cacheKey p = key /\ state p = Pending.

(** The shape the weather tables keep as long as [clearCache] is not
    called: a pending request is the one registered under its key, a
    cached key stays registered to a settled request, and promise
    identities below [nextPromise] are the only ones in use. *)
Definition weatherCoalesced (s : ApiState) : Prop :=
  (forall request p,
     weatherPromises s !! request = Some p -> state p = Pending ->
     pendingWeatherRequests s !! cacheKey p = Some request)
  /\ (forall key,
        is_Some (weatherCache s !! key) ->
        exists request p,
          pendingWeatherRequests s !! key = Some request
          /\ weatherPromises s !! request = Some p
          /\ isPending (state p) = false)
  /\ (forall request,
        is_Some (weatherPromises s !! request) -> request < nextPromise s).

End Api.

(* ===================================================================== *)
(** ** More of the data-access layer *)
(* ===================================================================== *)

(** [getCacheStats()]: the number of entries of the two caches and their
    keys, weather keys first. Within each cache the keys come in the
    order of the map's enumeration, not in JavaScript's insertion order. *)
Definition getCacheStats (s : ApiState) : nat * list jsstring :=
  (size (weatherCache s) + size (cityCache s),
   (map_to_list (weatherCache s)).*1 ++ (map_to_list (cityCache s)).*1).

(** The shape the city tables keep as long as [clearCache] is not
    called (as [weatherCoalesced] for the weather tables). *)
Definition cityCoalesced (s : ApiState) : Prop :=
  (forall request p,
     cityPromises s !! request = Some p -> state p = Pending ->
     pendingCityRequests s !! cacheKey p = Some request)
  /\ (forall key,
        is_Some (cityCache s !! key) ->
        exists request p,
          pendingCityRequests s !! key = Some request
          /\ cityPromises s !! request = Some p
          /\ isPending (state p) = false)
  /\ (forall request,
        is_Some (cityPromises s !! request) -> request < nextPromise s).

(** Promise identities in use are below [nextPromise]. *)
Definition fresh (s : ApiState) : Prop :=
  (forall request, is_Some (weatherPromises s !! request) -> request < nextPromise s)
  /\ (forall request, is_Some (cityPromises s !! request) -> request < nextPromise s).

(** Three HTTP calls per weather request, one per search, none else. *)
Definition accounted (s : ApiState) : Prop :=
  length (httpLog s) = 3 * size (weatherPromises s) + size (cityPromises s).

(** Every cache entry is the value of a fulfilled request for its key. *)
Definition cacheFromRequests (s : ApiState) : Prop :=
  (forall key c,
     weatherCache s !! key = Some c ->
     exists request p, weatherPromises s !! request = Some p
                       /\ cacheKey p = key /\ state p = Fulfilled (data c))
  /\ (forall key c,
        cityCache s !! key = Some c ->
        exists request p, cityPromises s !! request = Some p
                          /\ cacheKey p = key /\ state p = Fulfilled (data c)).

(** Requests are keyed with the prefix of their table. *)
Definition keysPrefixed (s : ApiState) : Prop :=
  (forall request p, weatherPromises s !! request = Some p ->
                     startsWith (cacheKey p) (lit "weather-") = true)
  /\ (forall request p, cityPromises s !! request = Some p ->
                        startsWith (cacheKey p) (lit "cities-") = true).

(** What every reachable state of the layer satisfies. *)
Definition sound (s : ApiState) : Prop :=
  fresh s /\ accounted s /\ cacheFromRequests s /\ keysPrefixed s.

(* ===================================================================== *)
(** ** Callers of the store and further vocabulary *)
(* ===================================================================== *)

Section StoreCallers.
Context `{Constants}.

(** The [onReset] handler of the error boundary in the page component:
    [reset(); handleUseCurrentLocation()], where
    [handleUseCurrentLocation] calls [triggerCurrentLocation()]. *)
Definition errorBoundaryReset (s : WeatherState) : WeatherState :=
  triggerCurrentLocation (reset s).

(** The actions that can write [false] into [hasInitialLoad]. *)
Definition lowersInitialLoad (a : Action) : bool :=
  match a with
  | SetInitialLoad false | Reset => true
  | _ => false
  end.

(** The actions that can write [true] into [showLocationDialog]. *)
Definition reopensDialog (a : Action) : bool :=
  match a with
  | SetLocationDialog true | Reset => true
  | _ => false
  end.

(** The actions that write [weatherData]. *)
Definition writesWeatherData (a : Action) : bool :=
  match a with
  | SetWeatherData _ | Reset => true
  | _ => false
  end.

End StoreCallers.

(** The hint "Enter at least 3 letters to search" of the navigation bar
    is rendered when [searchQuery.length > 0 && searchQuery.length < 3]. *)
Definition showMinLengthHint (query : jsstring) : bool :=
  (0 <? length query) && (length query <? 3).

(* ===================================================================== *)
(** ** Sample parameters for the worked examples *)
(* ===================================================================== *)

(** A stand-in for the default location of [@/constants]. *)
Definition sampleConstants : Constants :=
  {| DEFAULT_COORDINATES := {| lat := 28.6139; lon := 77.209 |} |}.


(** The error with which axios rejects a call whose signal fired: its own
    [CanceledError], an axios error with message ["canceled"] and no
    response. *)
Definition axiosCanceledError : RawError := {|
  instanceofError := true;
  errName := lit "CanceledError";
  isAxiosError := true;
  responseDataMessage := None;
  errMessage := lit "canceled"
|}.

(** A runtime that prints the two numbers of the worked examples as
    JavaScript does and rejects aborted calls as axios does. *)
Definition sampleRuntime : Runtime := {|
  numberToString x :=
    if PrimFloat.eqb x 12.9 then lit "12.9"
    else if PrimFloat.eqb x 77.6 then lit "77.6"
    else lit "0";
  abortReason := axiosCanceledError
|}.

(** A provider error: HTTP 404 with a message in the response body. *)
Definition notFoundError : RawError := {|
  instanceofError := true;
  errName := lit "AxiosError";
  isAxiosError := true;
  responseDataMessage := Some (lit "city not found");
  errMessage := lit "Request failed with status code 404"
|}.

(* ===================================================================== *)
(** ** Properties of the store *)
(* ===================================================================== *)

Section StoreFacts.
Context `{Constants}.

Lemma runActions_snoc acts a s :
  runActions (acts ++ [a]) s = dispatch a (runActions acts s).
Proof. unfold runActions. now rewrite fold_left_app. Qed.

Lemma exclusive_initial : exclusive initialState.
Proof. reflexivity. Qed.

(** Every action but the two flag-raising setters keeps the flags
    exclusive. *)
Lemma dispatch_exclusive a s :
  raisesFlagAlone a = false -> exclusive s -> exclusive (dispatch a s).
Proof.
  unfold exclusive. intros Ha Hs.
  destruct s as [c w u l e d m g h q cs sr]; simpl in Hs.
  destruct a as [| | | | |[|]|[|]| | | | |la lo| |[|]|]; simpl in *;
    try discriminate; try assumption; try reflexivity.
  - now destruct m.
  - unfold updateLocation; simpl.
    destruct (_ || _); simpl; [reflexivity | assumption].
Qed.

(** C6, as amended: in every state reached from the initial state by
    actions other than [setManualSelection(true)] and
    [setGeolocationEnabled(true)], [isManualSelection] and
    [geolocationEnabled] are not both true, and each such action keeps
    them so from any state where they are not both true. *)
Theorem selection_flags_exclusive (acts : list Action) :
  forallb (fun a => negb (raisesFlagAlone a)) acts = true ->
  exclusive (runActions acts initialState)
  /\ (forall a s, In a acts -> exclusive s -> exclusive (dispatch a s)).
Proof.
  intros Hacts. rewrite forallb_forall in Hacts. split.
  - revert Hacts. induction acts as [|a acts IH] using rev_ind; intros Hacts.
    + apply exclusive_initial.
    + rewrite runActions_snoc. apply dispatch_exclusive.
      * specialize (Hacts a). rewrite negb_true_iff in Hacts.
        apply Hacts, in_or_app. right. now left.
      * apply IH. intros x Hx. apply Hacts, in_or_app. now left.
  - intros a s Ha Hs. apply dispatch_exclusive; [|assumption].
    specialize (Hacts a Ha). now rewrite negb_true_iff in Hacts.
Qed.

(** C7: [handleLocationPermission(allow)] closes the location dialog;
    when allowed it enables geolocation, clears manual selection and keeps
    the coordinates; when denied it disables geolocation, marks manual
    selection and resets the coordinates to the default location. *)
Theorem handleLocationPermission_effect (allow : bool) (s : WeatherState) :
  showLocationDialog (handleLocationPermission allow s) = false
  /\ geolocationEnabled (handleLocationPermission true s) = true
  /\ isManualSelection (handleLocationPermission true s) = false
  /\ coordinates (handleLocationPermission true s) = coordinates s
  /\ geolocationEnabled (handleLocationPermission false s) = false
  /\ isManualSelection (handleLocationPermission false s) = true
  /\ coordinates (handleLocationPermission false s) = DEFAULT_COORDINATES.
Proof. destruct s, allow; repeat split. Qed.

(** C8: when the new coordinates differ from the current ones by more
    than 1e-6 on either axis, [updateLocation] stores the new pair, sets
    [isManualSelection], clears [geolocationEnabled], sets
    [hasInitialLoad] and clears [error], leaving the other fields as they
    were; when neither axis differs by more than 1e-6 the state is
    unchanged. *)
Theorem updateLocation_effect (lat' lon' : float) (s : WeatherState) :
  (js_gt (PrimFloat.abs (lat (coordinates s) - lat')) 0.000001 = true
   \/ js_gt (PrimFloat.abs (lon (coordinates s) - lon')) 0.000001 = true ->
   updateLocation lat' lon' s =
     {| coordinates := {| lat := lat'; lon := lon' |};
        weatherData := weatherData s;
        unit' := unit' s;
        isLoading := isLoading s;
        error := None;
        showLocationDialog := showLocationDialog s;
        isManualSelection := true;
        geolocationEnabled := false;
        hasInitialLoad := true;
        searchQuery := searchQuery s;
        citySuggestions := citySuggestions s;
        isSearching := isSearching s |})
  /\ (js_gt (PrimFloat.abs (lat (coordinates s) - lat')) 0.000001 = false
      /\ js_gt (PrimFloat.abs (lon (coordinates s) - lon')) 0.000001 = false ->
      updateLocation lat' lon' s = s).
Proof.
  unfold updateLocation. split.
  - intros Hfar.
    assert (Htest : js_gt (PrimFloat.abs (lat (coordinates s) - lat')) 0.000001
                    || js_gt (PrimFloat.abs (lon (coordinates s) - lon')) 0.000001
                    = true)
      by (apply orb_true_iff; exact Hfar).
    rewrite Htest. now destruct s.
  - intros [Hlat Hlon]. now rewrite Hlat, Hlon.
Qed.

(** C10: [handleLocationPermission] sets [hasInitialLoad], whatever the
    decision. *)
Theorem handleLocationPermission_hasInitialLoad (allow : bool) (s : WeatherState) :
  hasInitialLoad (handleLocationPermission allow s) = true.
Proof. now destruct s. Qed.

End StoreFacts.

(** C6, as stated, fails: the two simple setters raise both flags. *)
Lemma setters_raise_both_flags :
  let s := @runActions sampleConstants
             [SetManualSelection true; SetGeolocationEnabled true]
             (@initialState sampleConstants) in
  isManualSelection s = true /\ geolocationEnabled s = true.
Proof. split; reflexivity. Qed.

Lemma selection_flags_exclusive_witness :
  let acts := [ HandleLocationPermission false; UpdateLocation 12.9 77.6;
                SetManualSelection false; TriggerCurrentLocation;
                SetGeolocationEnabled false; Reset ] in
  @exclusive (@runActions sampleConstants acts (@initialState sampleConstants))
  /\ (forall a s, In a acts -> exclusive s -> exclusive (@dispatch sampleConstants a s)).
Proof.
  apply (@selection_flags_exclusive sampleConstants). reflexivity.
Defined.

(** The fuzzy no-op of the specification: after [updateLocation(12.9,
    77.6)], [updateLocation(12.9000001, 77.6000001)] changes nothing. *)
Lemma updateLocation_effect_witness :
  let s0 := @initialState sampleConstants in
  let s1 := updateLocation 12.9 77.6 s0 in
  coordinates s1 = {| lat := 12.9; lon := 77.6 |}
  /\ isManualSelection s1 = true
  /\ updateLocation 12.9000001 77.6000001 s1 = s1.
Proof.
  intros s0 s1.
  pose proof (proj1 (updateLocation_effect 12.9 77.6 s0)) as Hfar.
  pose proof (proj2 (updateLocation_effect 12.9000001 77.6000001 s1)) as Hnear.
  assert (Hs1 : s1 = {| coordinates := {| lat := 12.9; lon := 77.6 |};
                        weatherData := None; unit' := metric; isLoading := false;
                        error := None; showLocationDialog := true;
                        isManualSelection := true; geolocationEnabled := false;
                        hasInitialLoad := true; searchQuery := [];
                        citySuggestions := []; isSearching := false |}).
  { apply Hfar. left. vm_compute. reflexivity. }
  split; [now rewrite Hs1 | split; [now rewrite Hs1 |]].
  apply Hnear. rewrite Hs1. split; vm_compute; reflexivity.
Defined.

(* ===================================================================== *)
(** ** Properties of the data-access layer *)
(* ===================================================================== *)

Lemma isPending_Pending {A} (st : PromiseState A) :
  isPending st = true <-> st = Pending.
Proof. destruct st; simpl; split; congruence. Qed.

(** A cache entry written at [t] is not served from [t + CACHE_DURATION] on. *)
Lemma live_expired {A} (now : Z) (c : CacheEntry A) :
  (timestamp c + CACHE_DURATION <= now)%Z -> live now (Some c) = None.
Proof.
  intros Hle. unfold live.
  destruct (Z.ltb_spec (now - timestamp c) CACHE_DURATION); [lia|done].
Qed.

Lemma trim_nil : trim [] = [].
Proof. reflexivity. Qed.

Section ApiFacts.
Context `{Runtime}.

(** *** Rejection of a weather request *)

Lemma weatherRejected_frame request err s :
  weatherCache (weatherRejected request err s) = weatherCache s
  /\ cityCache (weatherRejected request err s) = cityCache s
  /\ pendingCityRequests (weatherRejected request err s) = pendingCityRequests s
  /\ cityPromises (weatherRejected request err s) = cityPromises s
  /\ nextPromise (weatherRejected request err s) = nextPromise s
  /\ httpLog (weatherRejected request err s) = httpLog s.
Proof.
  unfold weatherRejected. destruct (weatherPromises s !! request) as [p|]; [|done].
  now destruct (isPending (state p)).
Qed.

Lemma weatherRejected_pending request err s p :
  weatherPromises s !! request = Some p -> state p = Pending ->
  weatherPromises (weatherRejected request err s) !! request
    = Some (settled (Rejected err) p)
  /\ pendingWeatherRequests (weatherRejected request err s) !! cacheKey p = None.
Proof.
  intros Hp Hst. unfold weatherRejected. rewrite Hp, Hst. simpl.
  split; [apply lookup_insert_eq | apply lookup_delete_eq].
Qed.

Lemma weatherRejected_other request err s q :
  q <> request ->
  weatherPromises (weatherRejected request err s) !! q = weatherPromises s !! q.
Proof.
  intros Hne. unfold weatherRejected.
  destruct (weatherPromises s !! request) as [p|]; [|done].
  destruct (isPending (state p)); [|done]. simpl. now apply lookup_insert_ne.
Qed.




Lemma weatherRejected_all_frame err ids s :
  let s' := foldr (fun r acc => weatherRejected r err acc) s ids in
  weatherCache s' = weatherCache s
  /\ cityCache s' = cityCache s
  /\ pendingCityRequests s' = pendingCityRequests s
  /\ cityPromises s' = cityPromises s
  /\ nextPromise s' = nextPromise s
  /\ httpLog s' = httpLog s.
Proof.
  induction ids as [|r ids IH]; simpl; [done|].
  destruct (weatherRejected_frame r err
              (foldr (fun r acc => weatherRejected r err acc) s ids))
    as (-> & -> & -> & -> & -> & ->).
  exact IH.
Qed.

(** *** Rejection of a city search *)

Lemma cityRejected_frame request err s :
  cityCache (cityRejected request err s) = cityCache s
  /\ weatherCache (cityRejected request err s) = weatherCache s
  /\ pendingWeatherRequests (cityRejected request err s) = pendingWeatherRequests s
  /\ weatherPromises (cityRejected request err s) = weatherPromises s
  /\ nextPromise (cityRejected request err s) = nextPromise s
  /\ httpLog (cityRejected request err s) = httpLog s.
Proof.
  unfold cityRejected. destruct (cityPromises s !! request) as [p|]; [|done].
  now destruct (isPending (state p)).
Qed.

Lemma cityRejected_pending request err s p :
  cityPromises s !! request = Some p -> state p = Pending ->
  cityPromises (cityRejected request err s) !! request
    = Some (settled (Rejected err) p)
  /\ pendingCityRequests (cityRejected request err s) !! cacheKey p = None.
Proof.
  intros Hp Hst. unfold cityRejected. rewrite Hp, Hst. simpl.
  split; [apply lookup_insert_eq | apply lookup_delete_eq].
Qed.

Lemma cityRejected_other request err s q :
  q <> request ->
  cityPromises (cityRejected request err s) !! q = cityPromises s !! q.
Proof.
  intros Hne. unfold cityRejected.
  destruct (cityPromises s !! request) as [p|]; [|done].
  destruct (isPending (state p)); [|done]. simpl. now apply lookup_insert_ne.
Qed.




Lemma cityRejected_all_frame err ids s :
  let s' := foldr (fun r acc => cityRejected r err acc) s ids in
  cityCache s' = cityCache s
  /\ weatherCache s' = weatherCache s
  /\ pendingWeatherRequests s' = pendingWeatherRequests s
  /\ weatherPromises s' = weatherPromises s
  /\ nextPromise s' = nextPromise s
  /\ httpLog s' = httpLog s.
Proof.
  induction ids as [|r ids IH]; simpl; [done|].
  destruct (cityRejected_frame r err
              (foldr (fun r acc => cityRejected r err acc) s ids))
    as (-> & -> & -> & -> & -> & ->).
  exact IH.
Qed.

(** *** Cancellation *)


Lemma handleError_abort err : isAbortError err = true -> handleError err = err.
Proof. unfold handleError. now intros ->. Qed.

(** An error that the HTTP client flags as its own and that is not named
    ["AbortError"] is translated as a transport failure. *)
Lemma handleError_axios err :
  isAbortError err = false -> isAxiosError err = true ->
  errorKind err = TransportFailure
  /\ handleError err
     = newError (js_or (default [] (responseDataMessage err))
                       (js_or (errMessage err) (lit "API request failed"))).
Proof. unfold errorKind, handleError. now intros -> ->. Qed.

(** A call that finds neither a live cache entry nor a pending entry
    goes to the network. *)
Lemma fetchWeatherData_miss now lat' lon' sig s :
  live now (weatherCache s !! weatherKey lat' lon') = None ->
  pendingWeatherRequests s !! weatherKey lat' lon' = None ->
  (fetchWeatherData now lat' lon' sig s).1 = Awaits (nextPromise s) Originator
  /\ httpLog (fetchWeatherData now lat' lon' sig s).2
     = httpLog s ++ [ GetWeather lat' lon' sig; GetForecast lat' lon' sig;
                      GetAirPollution lat' lon' sig ].
Proof. intros Hc Hp. unfold fetchWeatherData. now rewrite Hc, Hp. Qed.

Lemma long_query_truthy query : 3 <= length (trim query) -> truthy query = true.
Proof. destruct query; [rewrite trim_nil; simpl; lia | done]. Qed.

Lemma searchCities_miss now query sig s :
  3 <= length (trim query) ->
  live now (cityCache s !! cityKey query) = None ->
  pendingCityRequests s !! cityKey query = None ->
  (searchCities now query sig s).1 = Awaits (nextPromise s) Originator
  /\ httpLog (searchCities now query sig s).2 = httpLog s ++ [ GetFind query sig ].
Proof.
  intros Hlen Hc Hp. unfold searchCities.
  rewrite (long_query_truthy _ Hlen). simpl.
  destruct (Nat.ltb_spec (length (trim query)) 3); [lia|].
  now rewrite Hc, Hp.
Qed.

(** *** Coalescing *)

Lemma coalesced_initial : weatherCoalesced initialApi.
Proof.
  repeat split; simpl.
  - intros request p Hp. now rewrite lookup_empty in Hp.
  - intros key [c Hc]. now rewrite lookup_empty in Hc.
  - intros request [p Hp]. now rewrite lookup_empty in Hp.
Qed.

(** Steps that leave the three weather tables alone keep the shape. *)
Lemma coalesced_frame s s' :
  weatherCache s' = weatherCache s ->
  pendingWeatherRequests s' = pendingWeatherRequests s ->
  weatherPromises s' = weatherPromises s ->
  nextPromise s <= nextPromise s' ->
  weatherCoalesced s -> weatherCoalesced s'.
Proof.
  intros Hc Hp Hh Hn (I1 & I2 & I3). unfold weatherCoalesced.
  rewrite Hc, Hp, Hh. repeat split; [done|done|].
  intros request Hr. specialize (I3 request Hr). lia.
Qed.

Lemma coalesced_cached_not_pending s key :
  weatherCoalesced s -> pendingWeatherRequests s !! key = None ->
  weatherCache s !! key = None.
Proof.
  intros (_ & I2 & _) Hp. destruct (weatherCache s !! key) as [c|] eqn:Hc; [|done].
  destruct (I2 key) as (r & p & Hr & _); [by rewrite Hc|]. congruence.
Qed.

Lemma coalesced_fetchWeatherData now lat' lon' sig s :
  weatherCoalesced s -> weatherCoalesced (fetchWeatherData now lat' lon' sig s).2.
Proof.
  intros Hinv. unfold fetchWeatherData.
  destruct (live now _); [done|].
  destruct (pendingWeatherRequests s !! weatherKey lat' lon') as [r|] eqn:Hpend; [done|].
  pose proof (coalesced_cached_not_pending _ _ Hinv Hpend) as Hcache.
  destruct Hinv as (I1 & I2 & I3). simpl.
  assert (Hfresh : weatherPromises s !! nextPromise s = None).
  { destruct (weatherPromises s !! nextPromise s) eqn:Hn; [|done].
    assert (nextPromise s < nextPromise s) by (apply I3; by rewrite Hn). lia. }
  repeat split; simpl.
  - intros request p Hp Hst.
    destruct (decide (request = nextPromise s)) as [->|Hne].
    + rewrite lookup_insert_eq in Hp. injection Hp as <-. simpl.
      apply lookup_insert_eq.
    + rewrite lookup_insert_ne in Hp by done.
      specialize (I1 request p Hp Hst).
      rewrite lookup_insert_ne; [done|]. intros Heq. congruence.
  - intros key Hkey.
    destruct (I2 key Hkey) as (r & p & Hr & Hp & Hst).
    exists r, p. assert (key <> weatherKey lat' lon').
    { intros ->. destruct Hkey as [c Hc]. congruence. }
    rewrite lookup_insert_ne by done. split; [done|]. split; [|done].
    rewrite lookup_insert_ne; [done|]. intros <-. congruence.
  - intros request [p Hp].
    destruct (decide (request = nextPromise s)) as [->|Hne]; [lia|].
    rewrite lookup_insert_ne in Hp by done.
    assert (request < nextPromise s) by (apply I3; by rewrite Hp). lia.
Qed.

Lemma coalesced_searchCities now query sig s :
  weatherCoalesced s -> weatherCoalesced (searchCities now query sig s).2.
Proof.
  intros Hinv. unfold searchCities.
  destruct (_ || _); [done|].
  destruct (live now _); [done|].
  destruct (pendingCityRequests s !! cityKey query); [done|].
  revert Hinv. apply coalesced_frame; simpl; try done. lia.
Qed.

Lemma coalesced_weatherFulfilled now request current fc air s :
  weatherCoalesced s ->
  weatherCoalesced (weatherFulfilled now request current fc air s).
Proof.
  intros Hinv. unfold weatherFulfilled.
  destruct (weatherPromises s !! request) as [p0|] eqn:Hp0; [|done].
  destruct (isPending (state p0)) eqn:Hst0; [|done].
  apply isPending_Pending in Hst0.
  destruct Hinv as (I1 & I2 & I3).
  pose proof (I1 request p0 Hp0 Hst0) as Hreg.
  repeat split; simpl.
  - intros r p Hp Hst.
    destruct (decide (r = request)) as [->|Hne].
    + rewrite lookup_insert_eq in Hp. injection Hp as <-. discriminate.
    + rewrite lookup_insert_ne in Hp by done. now apply I1.
  - intros key Hkey.
    destruct (decide (key = cacheKey p0)) as [->|Hne].
    + exists request, (settled (Fulfilled {| currentWeather := current;
                                             forecast := fc;
                                             airPollution := air |}) p0).
      split; [done|]. split; [apply lookup_insert_eq | done].
    + rewrite lookup_insert_ne in Hkey by done.
      destruct (I2 key Hkey) as (r & p & Hr & Hp & Hst).
      exists r, p. split; [done|]. split; [|done].
      rewrite lookup_insert_ne; [done|]. intros <-.
      rewrite Hp0 in Hp. injection Hp as <-. rewrite Hst0 in Hst. discriminate.
  - intros r [p Hp].
    destruct (decide (r = request)) as [->|Hne].
    + apply I3. by rewrite Hp0.
    + rewrite lookup_insert_ne in Hp by done. apply I3. by rewrite Hp.
Qed.

Lemma coalesced_weatherRejected request err s :
  weatherCoalesced s -> weatherCoalesced (weatherRejected request err s).
Proof.
  intros Hinv. unfold weatherRejected.
  destruct (weatherPromises s !! request) as [p0|] eqn:Hp0; [|done].
  destruct (isPending (state p0)) eqn:Hst0; [|done].
  apply isPending_Pending in Hst0.
  destruct Hinv as (I1 & I2 & I3).
  pose proof (I1 request p0 Hp0 Hst0) as Hreg.
  repeat split; simpl.
  - intros r p Hp Hst.
    destruct (decide (r = request)) as [->|Hne].
    + rewrite lookup_insert_eq in Hp. injection Hp as <-. discriminate.
    + rewrite lookup_insert_ne in Hp by done.
      specialize (I1 r p Hp Hst).
      rewrite lookup_delete_ne; [done|]. intros Heq.
      rewrite Heq in Hreg. congruence.
  - intros key Hkey.
    destruct (I2 key Hkey) as (r & p & Hr & Hp & Hst).
    assert (r <> request).
    { intros ->. rewrite Hp0 in Hp. injection Hp as <-.
      rewrite Hst0 in Hst. discriminate. }
    exists r, p. split.
    + rewrite lookup_delete_ne; [done|]. intros <-. congruence.
    + split; [|done]. now rewrite lookup_insert_ne.
  - intros r [p Hp].
    destruct (decide (r = request)) as [->|Hne].
    + apply I3. by rewrite Hp0.
    + rewrite lookup_insert_ne in Hp by done. apply I3. by rewrite Hp.
Qed.

Lemma coalesced_cityFulfilled now request responseList s :
  weatherCoalesced s -> weatherCoalesced (cityFulfilled now request responseList s).
Proof.
  unfold cityFulfilled. destruct (cityPromises s !! request) as [p|]; [|done].
  destruct (isPending (state p)); [|done]. now apply coalesced_frame.
Qed.

Lemma coalesced_cityRejected request err s :
  weatherCoalesced s -> weatherCoalesced (cityRejected request err s).
Proof.
  unfold cityRejected. destruct (cityPromises s !! request) as [p|]; [|done].
  destruct (isPending (state p)); [|done]. now apply coalesced_frame.
Qed.

Lemma coalesced_abortSignal sig s :
  weatherCoalesced s -> weatherCoalesced (abortSignal sig s).
Proof.
  intros Hinv. unfold abortSignal.
  induction (carrying sig (cityPromises s)) as [|r ids IH]; simpl.
  - induction (carrying sig (weatherPromises s)) as [|r ids IH]; simpl; [done|].
    now apply coalesced_weatherRejected.
  - now apply coalesced_cityRejected.
Qed.

Lemma coalesced_clearCacheByPattern pattern s :
  weatherCoalesced s -> weatherCoalesced (clearCacheByPattern pattern s).
Proof.
  intros (I1 & I2 & I3). repeat split; simpl; [done| |done].
  intros key [c Hc]. apply map_lookup_filter_Some in Hc as [Hc _].
  apply I2. by rewrite Hc.
Qed.

Lemma coalesced_step e s :
  isClearCache e = false -> weatherCoalesced s -> weatherCoalesced (step e s).
Proof.
  destruct e; simpl; intros He Hinv; try discriminate.
  - now apply coalesced_fetchWeatherData.
  - now apply coalesced_searchCities.
  - now apply coalesced_weatherFulfilled.
  - now apply coalesced_weatherRejected.
  - now apply coalesced_cityFulfilled.
  - now apply coalesced_cityRejected.
  - now apply coalesced_abortSignal.
  - now apply coalesced_clearCacheByPattern.
Qed.

Lemma run_snoc evs e s : run (evs ++ [e]) s = step e (run evs s).
Proof. unfold run. now rewrite fold_left_app. Qed.

Lemma coalesced_run evs :
  forallb (fun e => negb (isClearCache e)) evs = true ->
  weatherCoalesced (run evs initialApi).
Proof.
  induction evs as [|e evs IH] using rev_ind; intros Hevs.
  - apply coalesced_initial.
  - rewrite forallb_app in Hevs. apply andb_true_iff in Hevs as [Hevs He].
    simpl in He. rewrite andb_true_r, negb_true_iff in He.
    rewrite run_snoc. apply coalesced_step; [done | now apply IH].
Qed.

Lemma coalesced_unique s key p q :
  weatherCoalesced s ->
  weatherInFlight s p key -> weatherInFlight s q key -> p = q.
Proof.
  intros (I1 & _ & _) (pp & Hp & Hkp & Hsp) (pq & Hq & Hkq & Hsq).
  pose proof (I1 p pp Hp Hsp) as H1. pose proof (I1 q pq Hq Hsq) as H2.
  rewrite Hkp in H1. rewrite Hkq in H2. congruence.
Qed.

Lemma coalesced_join s now lat' lon' sig request :
  weatherCoalesced s ->
  weatherInFlight s request (weatherKey lat' lon') ->
  fetchWeatherData now lat' lon' sig s = (Awaits request Joined, s).
Proof.
  intros Hinv (p & Hp & Hkey & Hst). unfold fetchWeatherData.
  destruct Hinv as (I1 & I2 & _).
  pose proof (I1 request p Hp Hst) as Hreg. rewrite Hkey in Hreg.
  assert (Hcache : weatherCache s !! weatherKey lat' lon' = None).
  { destruct (weatherCache s !! weatherKey lat' lon') as [c|] eqn:Hc; [|done].
    destruct (I2 (weatherKey lat' lon')) as (r & p' & Hr & Hp' & Hst');
      [by rewrite Hc|].
    rewrite Hreg in Hr. injection Hr as <-. rewrite Hp in Hp'.
    injection Hp' as <-. rewrite Hst in Hst'. discriminate. }
  rewrite Hcache. simpl. now rewrite Hreg.
Qed.

Lemma fetchWeatherData_originates now lat' lon' sig s request s1 :
  fetchWeatherData now lat' lon' sig s = (Awaits request Originator, s1) ->
  request = nextPromise s
  /\ s1 = (fetchWeatherData now lat' lon' sig s).2
  /\ weatherPromises s1 !! request
     = Some {| cacheKey := weatherKey lat' lon'; signal := sig; state := Pending |}
  /\ httpLog s1 = httpLog s ++ [ GetWeather lat' lon' sig; GetForecast lat' lon' sig;
                                 GetAirPollution lat' lon' sig ].
Proof.
  intros Hcall. split; [|split; [by rewrite Hcall|]]; revert Hcall;
    unfold fetchWeatherData; destruct (live now _); try discriminate;
    destruct (pendingWeatherRequests s !! _); try discriminate;
    intros [= <- <-]; [done|]. simpl. split; [apply lookup_insert_eq | done].
Qed.

(** C3, as amended: as long as [clearCache] is not called, at most one
    weather request per cache key is in flight; a call for a key whose
    request is in flight gets that same request and issues nothing; hence
    two calls for the same coordinates before settlement make one set of
    HTTP calls, and on success both receive the same snapshot. *)
Theorem coalescing_without_clearCache (evs : list Event) :
  forallb (fun e => negb (isClearCache e)) evs = true ->
  let s := run evs initialApi in
  (forall key p q, weatherInFlight s p key -> weatherInFlight s q key -> p = q)
  /\ (forall now lat' lon' sig request,
        weatherInFlight s request (weatherKey lat' lon') ->
        fetchWeatherData now lat' lon' sig s = (Awaits request Joined, s))
  /\ (forall now1 now2 lat' lon' sig1 sig2 request s1,
        fetchWeatherData now1 lat' lon' sig1 s = (Awaits request Originator, s1) ->
        httpLog s1 = httpLog s ++ [ GetWeather lat' lon' sig1;
                                    GetForecast lat' lon' sig1;
                                    GetAirPollution lat' lon' sig1 ]
        /\ fetchWeatherData now2 lat' lon' sig2 s1 = (Awaits request Joined, s1)
        /\ forall now3 current fc air,
             let s2 := weatherFulfilled now3 request current fc air s1 in
             let snapshot := {| currentWeather := current; forecast := fc;
                                airPollution := air |} in
             outcomeIn (weatherPromises s2) (Awaits request Originator)
             = Some (Resolves snapshot)
             /\ outcomeIn (weatherPromises s2) (Awaits request Joined)
                = Some (Resolves snapshot)).
Proof.
  intros Hevs s. pose proof (coalesced_run evs Hevs) as Hinv. fold s in Hinv.
  split; [|split].
  - intros key p q. now apply coalesced_unique.
  - intros now lat' lon' sig request. now apply coalesced_join.
  - intros now1 now2 lat' lon' sig1 sig2 request s1 Hcall.
    destruct (fetchWeatherData_originates _ _ _ _ _ _ _ Hcall)
      as (Hreq & Hs1 & Hheap & Hlog).
    split; [done|]. split.
    + apply coalesced_join.
      * rewrite Hs1. now apply coalesced_fetchWeatherData.
      * eexists. split; [exact Hheap|done].
    + intros now3 current fc air s2 snapshot. subst s2.
      unfold weatherFulfilled. rewrite Hheap. simpl.
      rewrite lookup_insert_eq. done.
Qed.

(** *** The success path and expiry *)

(** Fulfilment leaves the pending tables as they are. *)
Lemma weatherFulfilled_keeps_pending now request current fc air s :
  pendingWeatherRequests (weatherFulfilled now request current fc air s)
  = pendingWeatherRequests s.
Proof.
  unfold weatherFulfilled. destruct (weatherPromises s !! request) as [p|]; [|done].
  now destruct (isPending (state p)).
Qed.

Lemma cityFulfilled_keeps_pending now request responseList s :
  pendingCityRequests (cityFulfilled now request responseList s)
  = pendingCityRequests s.
Proof.
  unfold cityFulfilled. destruct (cityPromises s !! request) as [p|]; [|done].
  now destruct (isPending (state p)).
Qed.

(** From [timestamp + CACHE_DURATION] on, a call is not answered from the
    cache. *)
Lemma expired_entry_not_served now lat' lon' sig s c :
  weatherCache s !! weatherKey lat' lon' = Some c ->
  (timestamp c + CACHE_DURATION <= now)%Z ->
  forall cachedData, (fetchWeatherData now lat' lon' sig s).1 <> Returned cachedData.
Proof.
  intros Hc Hlate cachedData. unfold fetchWeatherData.
  rewrite Hc, live_expired by done.
  now destruct (pendingWeatherRequests s !! weatherKey lat' lon').
Qed.

(** As long as [clearCache] is not called, a key that has a cache entry
    is never fetched again: past expiry the call is answered by the
    settled request still registered as pending. *)
Lemma cached_key_never_refetched now lat' lon' sig s :
  weatherCoalesced s ->
  is_Some (weatherCache s !! weatherKey lat' lon') ->
  (fetchWeatherData now lat' lon' sig s).2 = s.
Proof.
  intros (_ & I2 & _) Hc. destruct (I2 _ Hc) as (r & p & Hr & _).
  unfold fetchWeatherData. destruct (live now _); [done|]. now rewrite Hr.
Qed.

(** *** The search floor *)

(** C9: a query whose trimmed form has fewer than 3 code units yields the
    empty list at once; caches, pending tables and HTTP log are as before. *)
Theorem searchCities_short_query (now : Z) (query : jsstring)
    (sig : option Signal) (s : ApiState) :
  length (trim query) < 3 ->
  searchCities now query sig s = (Returned [], s).
Proof.
  intros Hlen. unfold searchCities.
  destruct (Nat.ltb_spec (length (trim query)) 3); [|lia].
  now rewrite orb_true_r.
Qed.

End ApiFacts.

(* ===================================================================== *)
(** ** Worked executions of the data-access layer *)
(* ===================================================================== *)

(** C3, as stated, fails: after [clearCache] a second call for the same
    coordinates issues its own HTTP calls while the first request is
    still in flight. *)
Lemma clearCache_allows_second_transaction :
  let key := lit "weather-12.9-77.6" in
  let s := @run sampleRuntime
             [ CallFetchWeather 0 12.9 77.6 None; CallClearCache ] initialApi in
  let call := @fetchWeatherData sampleRuntime 1 12.9 77.6 None s in
  weatherInFlight s 0 key
  /\ call.1 = Awaits 1 Originator
  /\ weatherInFlight call.2 0 key
  /\ weatherInFlight call.2 1 key
  /\ length (httpLog call.2) = 6.
Proof.
  assert (Hin : forall s r,
            weatherPromises s !! r
            = Some {| cacheKey := lit "weather-12.9-77.6"; signal := None;
                      state := Pending |} ->
            weatherInFlight s r (lit "weather-12.9-77.6")).
  { intros s r Hr. eexists. split; [exact Hr|done]. }
  simpl. repeat split; try apply Hin; vm_compute; reflexivity.
Qed.

Lemma coalescing_without_clearCache_witness :
  let s := @run sampleRuntime
             [ CallFetchWeather 0 12.9 77.6 None;
               CallClearCacheByPattern (lit "cities") ] initialApi in
  @fetchWeatherData sampleRuntime 5 12.9 77.6 (Some 1) s = (Awaits 0 Joined, s).
Proof.
  intros s.
  apply (proj1 (proj2 (@coalescing_without_clearCache sampleRuntime
                         [ CallFetchWeather 0 12.9 77.6 None;
                           CallClearCacheByPattern (lit "cities") ] eq_refl))).
  exists {| cacheKey := lit "weather-12.9-77.6"; signal := None; state := Pending |}.
  split; [vm_compute; reflexivity|]. split; reflexivity.
Defined.

(** The search floor of the specification: "Pa" has 2 characters. *)
Lemma searchCities_short_query_witness :
  searchCities 0 (lit "Pa") None initialApi = (Returned [], initialApi).
Proof. apply searchCities_short_query. vm_compute. lia. Defined.

(** C1 fails on the code: a weather request for (12.9, 77.6) and a search
    for "Par" are issued and succeed; afterwards the cache holds each
    result, and each pending table still maps the key to the settled
    request. *)
Lemma pending_entry_survives_success :
  let s1 := (@fetchWeatherData sampleRuntime 0 12.9 77.6 None initialApi).2 in
  let s2 := weatherFulfilled 1000 0 (lit "clear") (lit "5 days") (lit "aqi 2") s1 in
  let s3 := (searchCities 2000 (lit "Par") None s2).2 in
  let s4 := cityFulfilled 3000 1 [] s3 in
  (@fetchWeatherData sampleRuntime 0 12.9 77.6 None initialApi).1 = Awaits 0 Originator
  /\ (searchCities 2000 (lit "Par") None s2).1 = Awaits 1 Originator
  /\ timestamp <$> weatherCache s4 !! lit "weather-12.9-77.6" = Some 1000%Z
  /\ timestamp <$> cityCache s4 !! lit "cities-Par" = Some 3000%Z
  /\ pendingWeatherRequests s4 !! lit "weather-12.9-77.6" = Some 0
  /\ pendingCityRequests s4 !! lit "cities-Par" = Some 1
  /\ isPending <$> (state <$> weatherPromises s4 !! 0) = Some false
  /\ isPending <$> (state <$> cityPromises s4 !! 1) = Some false.
Proof. vm_compute. repeat split. Qed.

(** C2 fails on the code: the entry written at time 1000 is not served
    from the cache at time 1000 + [CACHE_DURATION], yet the call issues no
    HTTP call; it returns the settled request left in the pending table,
    whose value is the stale data. The same for a search. *)
Lemma expired_entry_served_from_pending_table :
  let s1 := (@fetchWeatherData sampleRuntime 0 12.9 77.6 None initialApi).2 in
  let s2 := weatherFulfilled 1000 0 (lit "clear") (lit "5 days") (lit "aqi 2") s1 in
  let s3 := (searchCities 2000 (lit "Par") None s2).2 in
  let s4 := cityFulfilled 3000 1 [] s3 in
  let stale := {| currentWeather := lit "clear"; forecast := lit "5 days";
                  airPollution := lit "aqi 2" |} in
  timestamp <$> weatherCache s4 !! lit "weather-12.9-77.6" = Some 1000%Z
  /\ live (1000 + CACHE_DURATION) (weatherCache s4 !! lit "weather-12.9-77.6") = None
  /\ @fetchWeatherData sampleRuntime (1000 + CACHE_DURATION) 12.9 77.6 None s4
     = (Awaits 0 Joined, s4)
  /\ outcomeIn (weatherPromises s4) (Awaits 0 Joined) = Some (Resolves stale)
  /\ timestamp <$> cityCache s4 !! lit "cities-Par" = Some 3000%Z
  /\ live (3000 + CACHE_DURATION) (cityCache s4 !! lit "cities-Par") = None
  /\ searchCities (3000 + CACHE_DURATION) (lit "Par") None s4
     = (Awaits 1 Joined, s4)
  /\ outcomeIn (cityPromises s4) (Awaits 1 Joined) = Some (Resolves [])
  /\ length (httpLog s4) = 4.
Proof. vm_compute. repeat split. Qed.

(** C4 fails on the code: two calls share one weather request, which
    fails with a provider error; the pending entry is removed, the call
    that issued the request throws the translated error, and the call that
    joined it throws the provider error as it is. The same for a search. *)
Lemma joined_waiter_receives_raw_error :
  let s1 := (@fetchWeatherData sampleRuntime 0 12.9 77.6 None initialApi).2 in
  let s2 := weatherRejected 0 notFoundError s1 in
  let t1 := (searchCities 0 (lit "Par") None initialApi).2 in
  let t2 := cityRejected 0 notFoundError t1 in
  (@fetchWeatherData sampleRuntime 1 12.9 77.6 None s1).1 = Awaits 0 Joined
  /\ pendingWeatherRequests s2 !! lit "weather-12.9-77.6" = None
  /\ outcomeIn (weatherPromises s2) (Awaits 0 Originator)
     = Some (Throws (newError (lit "city not found")))
  /\ outcomeIn (weatherPromises s2) (Awaits 0 Joined) = Some (Throws notFoundError)
  /\ (searchCities 1 (lit "Par") None t1).1 = Awaits 0 Joined
  /\ pendingCityRequests t2 !! lit "cities-Par" = None
  /\ outcomeIn (cityPromises t2) (Awaits 0 Originator)
     = Some (Throws (newError (lit "city not found")))
  /\ outcomeIn (cityPromises t2) (Awaits 0 Joined) = Some (Throws notFoundError)
  /\ handleError notFoundError <> notFoundError.
Proof. vm_compute. repeat split. discriminate. Qed.

(* ===================================================================== *)
(** ** Further properties of the store *)
(* ===================================================================== *)

(** The difference of a number with itself is never above the tolerance,
    also when it is infinite or not a number. *)
Lemma SFsub_diag_small prec emax x :
  SFltb (Prim2SF 0.000001%float) (SFabs (SFsub prec emax x x)) = false.
Proof.
  destruct x as [[|]|[|]| |sg m e]; try reflexivity.
  unfold SFsub.
  replace (IntDef.Z.min e e) with e by (symmetry; apply Z.min_id).
  unfold shl_align.
  replace (e - e)%Z with 0%Z by (symmetry; apply Z.sub_diag). simpl fst.
  match goal with |- context [binary_normalize _ _ ?d _ _] =>
    replace d with 0%Z by (symmetry; apply Z.sub_diag) end.
  reflexivity.
Qed.

Lemma self_within_tolerance (x : float) :
  js_gt (PrimFloat.abs (x - x)) 0.000001 = false.
Proof.
  unfold js_gt. rewrite ltb_spec, abs_spec, sub_spec. apply SFsub_diag_small.
Qed.

Section StoreMore.
Context `{Constants}.

Lemma reset_initial s : reset s = initialState.
Proof. now destruct s. Qed.

(** X1: whatever happened before, [reset] yields the initial state. *)
Theorem reset_restores_initial (acts : list Action) (s : WeatherState) :
  runActions (acts ++ [Reset]) s = initialState.
Proof. rewrite runActions_snoc. apply reset_initial. Qed.

Lemma dispatch_keeps_initialLoad a s :
  lowersInitialLoad a = false ->
  hasInitialLoad s = true -> hasInitialLoad (dispatch a s) = true.
Proof.
  intros Ha Hs. destruct s as [c w u l e d m g h q cs sr]; simpl in Hs.
  destruct a as [| | | | | | |[|]| | | |la lo| | |]; simpl in *;
    try discriminate; try assumption; try reflexivity.
  unfold updateLocation; simpl. now destruct (_ || _).
Qed.

(** X2: once [hasInitialLoad] is true it stays true under every action
    other than [setInitialLoad(false)] and [reset]. *)
Theorem hasInitialLoad_stays (acts : list Action) (s : WeatherState) :
  forallb (fun a => negb (lowersInitialLoad a)) acts = true ->
  hasInitialLoad s = true ->
  hasInitialLoad (runActions acts s) = true.
Proof.
  intros Hacts Hs. induction acts as [|a acts IH] using rev_ind; [done|].
  rewrite forallb_app in Hacts. apply andb_true_iff in Hacts as [Hacts Ha].
  simpl in Ha. rewrite andb_true_r, negb_true_iff in Ha.
  rewrite runActions_snoc. apply dispatch_keeps_initialLoad; [done | now apply IH].
Qed.

Lemma dispatch_keeps_dialog_closed a s :
  reopensDialog a = false ->
  showLocationDialog s = false -> showLocationDialog (dispatch a s) = false.
Proof.
  intros Ha Hs. destruct s as [c w u l e d m g h q cs sr]; simpl in Hs.
  destruct a as [| | | |[|]| | | | | | |la lo| | |]; simpl in *;
    try discriminate; try assumption; try reflexivity.
  unfold updateLocation; simpl. now destruct (_ || _).
Qed.

(** X3: once the location dialog is closed, no action other than
    [setLocationDialog(true)] and [reset] shows it again. *)
Theorem dialog_stays_closed (acts : list Action) (s : WeatherState) :
  forallb (fun a => negb (reopensDialog a)) acts = true ->
  showLocationDialog s = false ->
  showLocationDialog (runActions acts s) = false.
Proof.
  intros Hacts Hs. induction acts as [|a acts IH] using rev_ind; [done|].
  rewrite forallb_app in Hacts. apply andb_true_iff in Hacts as [Hacts Ha].
  simpl in Ha. rewrite andb_true_r, negb_true_iff in Ha.
  rewrite runActions_snoc. apply dispatch_keeps_dialog_closed; [done | now apply IH].
Qed.

Lemma dispatch_keeps_weatherData a s :
  writesWeatherData a = false -> weatherData (dispatch a s) = weatherData s.
Proof.
  intros Ha. destruct s as [c w u l e d m g h q cs sr].
  destruct a; simpl in *; try discriminate; try reflexivity.
  unfold updateLocation; simpl. now destruct (_ || _).
Qed.

(** X4: the weather snapshot held by the store changes only through
    [setWeatherData] and [reset]: no location action, search action or
    flag setter clears or replaces it. *)
Theorem weatherData_only_set_explicitly (acts : list Action) (s : WeatherState) :
  forallb (fun a => negb (writesWeatherData a)) acts = true ->
  weatherData (runActions acts s) = weatherData s.
Proof.
  intros Hacts. induction acts as [|a acts IH] using rev_ind; [done|].
  rewrite forallb_app in Hacts. apply andb_true_iff in Hacts as [Hacts Ha].
  simpl in Ha. rewrite andb_true_r, negb_true_iff in Ha.
  rewrite runActions_snoc, dispatch_keeps_weatherData by done. now apply IH.
Qed.

Lemma dispatch_keeps_metric a s : unit' s = metric -> unit' (dispatch a s) = metric.
Proof.
  intros Hs. destruct s as [c w u l e d m g h q cs sr]; simpl in Hs.
  destruct a; simpl; try assumption; try reflexivity.
  unfold updateLocation; simpl. now destruct (_ || _).
Qed.

(** X5: the store has no action that changes the unit system: in every
    state reached from the initial state it is [metric]. *)
Theorem unit_always_metric (acts : list Action) :
  unit' (runActions acts initialState) = metric.
Proof.
  induction acts as [|a acts IH] using rev_ind; [done|].
  rewrite runActions_snoc. now apply dispatch_keeps_metric.
Qed.

(** X6: the error boundary's reset handler leaves one and the same
    state whatever the state was: the defaults, with geolocation enabled,
    [hasInitialLoad] set and the location dialog shown again. *)
Theorem errorBoundaryReset_state (s : WeatherState) :
  errorBoundaryReset s =
    {| coordinates := DEFAULT_COORDINATES;
       weatherData := None;
       unit' := metric;
       isLoading := false;
       error := None;
       showLocationDialog := true;
       isManualSelection := false;
       geolocationEnabled := true;
       hasInitialLoad := true;
       searchQuery := [];
       citySuggestions := [];
       isSearching := false |}.
Proof. unfold errorBoundaryReset. now rewrite reset_initial. Qed.

(** X7: the three location actions are idempotent: repeating
    [updateLocation] with the same numbers (also infinite or NaN ones),
    [triggerCurrentLocation], or [handleLocationPermission] with the same
    decision changes nothing more. *)
Theorem location_actions_idempotent (lat' lon' : float) (allow : bool)
    (s : WeatherState) :
  updateLocation lat' lon' (updateLocation lat' lon' s) = updateLocation lat' lon' s
  /\ triggerCurrentLocation (triggerCurrentLocation s) = triggerCurrentLocation s
  /\ handleLocationPermission allow (handleLocationPermission allow s)
     = handleLocationPermission allow s.
Proof.
  split; [|split].
  - unfold updateLocation at 2 3.
    destruct (js_gt (PrimFloat.abs (lat (coordinates s) - lat')) 0.000001
              || js_gt (PrimFloat.abs (lon (coordinates s) - lon')) 0.000001) eqn:Hfar.
    + destruct s as [c w u l e d m g h q cs sr]. unfold updateLocation. simpl.
      now rewrite !self_within_tolerance.
    + unfold updateLocation. now rewrite Hfar.
  - now destruct s.
  - now destruct s, allow.
Qed.

End StoreMore.

Lemma hasInitialLoad_stays_witness :
  hasInitialLoad
    (@runActions sampleConstants
       [ SetInitialLoad true; UpdateLocation 12.9 77.6; SetError None;
         TriggerCurrentLocation ]
       (@handleLocationPermission sampleConstants false (@initialState sampleConstants)))
  = true.
Proof. apply hasInitialLoad_stays; reflexivity. Defined.

Lemma dialog_stays_closed_witness :
  showLocationDialog
    (@runActions sampleConstants
       [ SetLocationDialog false; UpdateLocation 12.9 77.6; TriggerCurrentLocation ]
       (@handleLocationPermission sampleConstants true (@initialState sampleConstants)))
  = false.
Proof. apply dialog_stays_closed; reflexivity. Defined.

Lemma weatherData_only_set_explicitly_witness :
  let snapshot := Some {| currentWeather := lit "clear"; forecast := lit "5 days";
                          airPollution := lit "aqi 2" |} in
  weatherData
    (@runActions sampleConstants
       [ UpdateLocation 12.9 77.6; SetError (Some (lit "offline"));
         HandleLocationPermission false; TriggerCurrentLocation ]
       (setWeatherData snapshot (@initialState sampleConstants)))
  = snapshot.
Proof.
  intros snapshot.
  apply (@weatherData_only_set_explicitly sampleConstants
           [ UpdateLocation 12.9 77.6; SetError (Some (lit "offline"));
             HandleLocationPermission false; TriggerCurrentLocation ]
           (setWeatherData snapshot (@initialState sampleConstants))).
  reflexivity.
Defined.

(* ===================================================================== *)
(** ** Further properties of the data-access layer *)
(* ===================================================================== *)

Lemma trimStart_length s : length (trimStart s) <= length s.
Proof.
  induction s as [|c s IH]; simpl; [lia|].
  destruct (isWhiteSpace c); simpl; lia.
Qed.

Lemma trim_length s : length (trim s) <= length s.
Proof.
  unfold trim, trimEnd. rewrite length_rev.
  etransitivity; [apply trimStart_length|]. rewrite length_rev.
  apply trimStart_length.
Qed.

Lemma startsWith_app p b : startsWith (p ++ b) p = true.
Proof. induction p as [|a p IH]; simpl; [now destruct b|]. now rewrite N.eqb_refl. Qed.

Lemma startsWith_spec s p : startsWith s p = true <-> exists b, s = p ++ b.
Proof.
  split.
  - revert s. induction p as [|a p IH]; intros s Hs; [by exists s|].
    destruct s as [|c s]; simpl in Hs; [discriminate|].
    apply andb_true_iff in Hs as [Hac Hs]. apply N.eqb_eq in Hac as ->.
    destruct (IH s Hs) as [b ->]. by exists b.
  - intros [b ->]. apply startsWith_app.
Qed.

(** [includes] is the substring test. *)
Lemma includes_spec s p : includes s p = true <-> exists a b, s = a ++ p ++ b.
Proof.
  split.
  - induction s as [|c s IH].
    + destruct p; [by exists [], [] | discriminate].
    + change (includes (c :: s) p) with (startsWith (c :: s) p || includes s p).
      intros Hs. apply orb_true_iff in Hs as [Hs|Hs].
      * apply startsWith_spec in Hs as [b Hb]. by exists [], b.
      * destruct (IH Hs) as (a & b & ->). by exists (c :: a), b.
  - intros (a & b & ->). induction a as [|c a IH].
    + simpl app. destruct (p ++ b) eqn:Hpb.
      * now destruct p.
      * change (includes (n :: l) p) with (startsWith (n :: l) p || includes l p).
        now rewrite <- Hpb, startsWith_app.
    + change (includes ((c :: a) ++ p ++ b) p)
        with (startsWith (c :: a ++ p ++ b) p || includes (a ++ p ++ b) p).
      now rewrite IH, orb_true_r.
Qed.

(** X8: [handleError] always returns an [Error]; unless it passes an
    abort error through, the result is a fresh plain [Error] whose message
    is not empty, and the provider's message is used whenever the client's
    error carries a non-empty one. *)
Theorem handleError_result (err : RawError) :
  instanceofError (handleError err) = true
  /\ (isAbortError err = false ->
      errName (handleError err) = lit "Error"
      /\ isAxiosError (handleError err) = false
      /\ truthy (errMessage (handleError err)) = true
      /\ (isAxiosError err = true ->
          forall m, responseDataMessage err = Some m -> truthy m = true ->
                    errMessage (handleError err) = m)).
Proof.
  unfold handleError. destruct (isAbortError err) eqn:Habort.
  - split; [|discriminate]. unfold isAbortError in Habort.
    now apply andb_true_iff in Habort as [-> _].
  - split; [now destruct (isAxiosError err)|]. intros _.
    destruct (isAxiosError err); simpl; repeat split; try discriminate.
    + unfold js_or. destruct (truthy (default [] (responseDataMessage err))) eqn:H1; [done|].
      now destruct (truthy (errMessage err)) eqn:H2.
    + intros _ m -> Hm. simpl. unfold js_or. now rewrite Hm.
Qed.

Section ApiMore.
Context `{Runtime}.

(** *** Cache hits and retries *)

(** X9: once a weather request has succeeded at time [T], a call for its
    coordinates made while [now - T < CACHE_DURATION] returns the snapshot
    from the cache and changes nothing: no HTTP call, no new request. *)
Theorem weather_cache_hit (now T : Z) (lat' lon' : float) (sig : option Signal)
    (request : PromiseId) (current fc air : Payload) (s : ApiState) :
  weatherInFlight s request (weatherKey lat' lon') ->
  (now - T < CACHE_DURATION)%Z ->
  let s' := weatherFulfilled T request current fc air s in
  fetchWeatherData now lat' lon' sig s'
  = (Returned {| currentWeather := current; forecast := fc; airPollution := air |}, s').
Proof.
  intros (p & Hp & Hkey & Hst) Hnow s'. subst s'.
  unfold weatherFulfilled. rewrite Hp, Hst. simpl.
  unfold fetchWeatherData. simpl. rewrite Hkey, lookup_insert_eq. simpl.
  destruct (Z.ltb_spec (now - T) CACHE_DURATION); [done|lia].
Qed.

(** X10: the same for a search: once the [/find] call for a query of at
    least 3 trimmed characters has succeeded at time [T], a search for the
    same query made while [now - T < CACHE_DURATION] returns the cached
    cities and changes nothing. *)
Theorem city_cache_hit (now T : Z) (query : jsstring) (sig : option Signal)
    (request : PromiseId) (responseList : list ProviderCity) (s : ApiState) :
  3 <= length (trim query) ->
  cityInFlight s request (cityKey query) ->
  (now - T < CACHE_DURATION)%Z ->
  let s' := cityFulfilled T request responseList s in
  searchCities now query sig s' = (Returned (map toCity responseList), s').
Proof.
  intros Hlen (p & Hp & Hkey & Hst) Hnow s'. subst s'.
  unfold cityFulfilled. rewrite Hp, Hst. simpl.
  unfold searchCities. rewrite (long_query_truthy _ Hlen). simpl.
  destruct (Nat.ltb_spec (length (trim query)) 3); [lia|].
  rewrite Hkey, lookup_insert_eq. simpl.
  destruct (Z.ltb_spec (now - T) CACHE_DURATION); [done|lia].
Qed.

(** X11: a failed request, whatever the error, writes nothing into the
    caches and frees its key: the next call for the key that finds no live
    cache entry issues its HTTP calls anew, under a new request. The same
    for a failed search. *)
Theorem failed_request_can_be_retried (err : RawError) (request : PromiseId)
    (s : ApiState) :
  (forall lat' lon',
     weatherInFlight s request (weatherKey lat' lon') ->
     let s' := weatherRejected request err s in
     weatherCache s' = weatherCache s /\ cityCache s' = cityCache s
     /\ pendingWeatherRequests s' !! weatherKey lat' lon' = None
     /\ forall now sig,
          live now (weatherCache s !! weatherKey lat' lon') = None ->
          (fetchWeatherData now lat' lon' sig s').1
            = Awaits (nextPromise s) Originator
          /\ httpLog (fetchWeatherData now lat' lon' sig s').2
             = httpLog s ++ [ GetWeather lat' lon' sig; GetForecast lat' lon' sig;
                              GetAirPollution lat' lon' sig ])
  /\ (forall query,
        3 <= length (trim query) ->
        cityInFlight s request (cityKey query) ->
        let s' := cityRejected request err s in
        weatherCache s' = weatherCache s /\ cityCache s' = cityCache s
        /\ pendingCityRequests s' !! cityKey query = None
        /\ forall now sig,
             live now (cityCache s !! cityKey query) = None ->
             (searchCities now query sig s').1 = Awaits (nextPromise s) Originator
             /\ httpLog (searchCities now query sig s').2
                = httpLog s ++ [ GetFind query sig ]).
Proof.
  split.
  - intros lat' lon' (p & Hp & Hkey & Hst) s'.
    destruct (weatherRejected_frame request err s) as (Hwc & Hcc & _ & _ & Hn & Hlog).
    destruct (weatherRejected_pending request err s p Hp Hst) as [_ Hfree].
    rewrite Hkey in Hfree. fold s' in Hwc, Hcc, Hn, Hlog, Hfree.
    repeat split; try done.
    + rewrite <- Hn. apply fetchWeatherData_miss; [by rewrite Hwc | done].
    + rewrite <- Hlog. apply fetchWeatherData_miss; [by rewrite Hwc | done].
  - intros query Hlen (p & Hp & Hkey & Hst) s'.
    destruct (cityRejected_frame request err s) as (Hcc & Hwc & _ & _ & Hn & Hlog).
    destruct (cityRejected_pending request err s p Hp Hst) as [_ Hfree].
    rewrite Hkey in Hfree. fold s' in Hwc, Hcc, Hn, Hlog, Hfree.
    repeat split; try done.
    + rewrite <- Hn. apply searchCities_miss; [done | by rewrite Hcc | done].
    + rewrite <- Hlog. apply searchCities_miss; [done | by rewrite Hcc | done].
Qed.

(** *** Cache administration *)

(** X12: after [clearCache], whatever the tables held, the next call for
    any coordinates and the next search for any query of at least 3
    trimmed characters go to the network. *)
Theorem clearCache_forces_network (s : ApiState) (now : Z) (sig : option Signal) :
  (forall lat' lon',
     (fetchWeatherData now lat' lon' sig (clearCache s)).1
       = Awaits (nextPromise s) Originator
     /\ httpLog (fetchWeatherData now lat' lon' sig (clearCache s)).2
        = httpLog s ++ [ GetWeather lat' lon' sig; GetForecast lat' lon' sig;
                         GetAirPollution lat' lon' sig ])
  /\ (forall query,
        3 <= length (trim query) ->
        (searchCities now query sig (clearCache s)).1
          = Awaits (nextPromise s) Originator
        /\ httpLog (searchCities now query sig (clearCache s)).2
           = httpLog s ++ [ GetFind query sig ]).
Proof.
  split.
  - intros lat' lon'.
    apply (fetchWeatherData_miss now lat' lon' sig (clearCache s)); simpl;
      now rewrite lookup_empty.
  - intros query Hlen.
    apply (searchCities_miss now query sig (clearCache s)); simpl;
      [done | | ]; now rewrite lookup_empty.
Qed.

(** X13: [clearCache] does not stop a request in flight: when it
    succeeds afterwards, its result is written into the emptied cache under
    its key and delivered to every caller awaiting it. *)
Theorem clearCache_keeps_requests_running (s : ApiState) (request : PromiseId)
    (key : jsstring) (T : Z) (current fc air : Payload) :
  weatherInFlight s request key ->
  let snapshot := {| currentWeather := current; forecast := fc; airPollution := air |} in
  let s' := weatherFulfilled T request current fc air (clearCache s) in
  weatherInFlight (clearCache s) request key
  /\ weatherCache s' !! key = Some {| data := snapshot; timestamp := T |}
  /\ forall role,
       outcomeIn (weatherPromises s') (Awaits request role) = Some (Resolves snapshot).
Proof.
  intros (p & Hp & Hkey & Hst) snapshot s'. split; [by exists p|].
  subst s'. unfold weatherFulfilled. simpl. rewrite Hp, Hst. simpl.
  rewrite Hkey. split; [apply lookup_insert_eq|].
  intros role. now rewrite lookup_insert_eq.
Qed.

(** X14: [clearCacheByPattern] removes from both caches exactly the
    entries whose key contains the pattern as a substring, and leaves the
    pending tables, the requests and the HTTP log as they are. *)
Theorem clearCacheByPattern_effect (pattern key : jsstring) (s : ApiState) :
  let s' := clearCacheByPattern pattern s in
  ((exists a b, key = a ++ pattern ++ b) ->
   weatherCache s' !! key = None /\ cityCache s' !! key = None)
  /\ ((forall a b, key <> a ++ pattern ++ b) ->
      weatherCache s' !! key = weatherCache s !! key
      /\ cityCache s' !! key = cityCache s !! key)
  /\ pendingWeatherRequests s' = pendingWeatherRequests s
  /\ pendingCityRequests s' = pendingCityRequests s
  /\ weatherPromises s' = weatherPromises s
  /\ cityPromises s' = cityPromises s
  /\ httpLog s' = httpLog s.
Proof.
  simpl. split; [|split; [|done]].
  - intros Hsub. apply includes_spec in Hsub.
    split; apply map_lookup_filter_None; right; intros c _; simpl; congruence.
  - intros Hnot.
    assert (Hinc : includes key pattern = false).
    { destruct (includes key pattern) eqn:Hinc; [|done].
      apply includes_spec in Hinc as (a & b & ->). now destruct (Hnot a b). }
    split.
    + destruct (weatherCache s !! key) as [c|] eqn:Hc.
      * now apply map_lookup_filter_Some.
      * apply map_lookup_filter_None. now left.
    + destruct (cityCache s !! key) as [c|] eqn:Hc.
      * now apply map_lookup_filter_Some.
      * apply map_lookup_filter_None. now left.
Qed.

(** *** The search hint of the navigation bar *)

(** X15: whenever the navigation bar shows its "Enter at least 3 letters"
    hint for a query, a search for that query returns the empty list
    without touching the tables or the network. *)
Theorem hint_implies_search_floor (now : Z) (query : jsstring)
    (sig : option Signal) (s : ApiState) :
  showMinLengthHint query = true ->
  searchCities now query sig s = (Returned [], s).
Proof.
  intros Hhint. apply searchCities_short_query.
  unfold showMinLengthHint in Hhint. apply andb_true_iff in Hhint as [_ Hlt].
  apply Nat.ltb_lt in Hlt. pose proof (trim_length query). lia.
Qed.

(** *** Coalescing of searches *)

Lemma abortSignal_preserves (P : ApiState -> Prop) sig s :
  (forall r e s0, P s0 -> P (weatherRejected r e s0)) ->
  (forall r e s0, P s0 -> P (cityRejected r e s0)) ->
  P s -> P (abortSignal sig s).
Proof.
  intros Hw Hc Hs. unfold abortSignal.
  induction (carrying sig (cityPromises s)) as [|r ids IH]; simpl; [|by apply Hc].
  induction (carrying sig (weatherPromises s)) as [|r ids IH]; simpl; [done|].
  by apply Hw.
Qed.

Lemma cityCoalesced_initial : cityCoalesced initialApi.
Proof.
  repeat split; simpl.
  - intros request p Hp. now rewrite lookup_empty in Hp.
  - intros key [c Hc]. now rewrite lookup_empty in Hc.
  - intros request [p Hp]. now rewrite lookup_empty in Hp.
Qed.

Lemma cityCoalesced_frame s s' :
  cityCache s' = cityCache s ->
  pendingCityRequests s' = pendingCityRequests s ->
  cityPromises s' = cityPromises s ->
  nextPromise s <= nextPromise s' ->
  cityCoalesced s -> cityCoalesced s'.
Proof.
  intros Hc Hp Hh Hn (I1 & I2 & I3). unfold cityCoalesced.
  rewrite Hc, Hp, Hh. repeat split; [done|done|].
  intros request Hr. specialize (I3 request Hr). lia.
Qed.

Lemma cityCoalesced_searchCities now query sig s :
  cityCoalesced s -> cityCoalesced (searchCities now query sig s).2.
Proof.
  intros Hinv. unfold searchCities.
  destruct (_ || _); [done|].
  destruct (live now _); [done|].
  destruct (pendingCityRequests s !! cityKey query) as [r|] eqn:Hpend; [done|].
  destruct Hinv as (I1 & I2 & I3). simpl.
  assert (Hcache : cityCache s !! cityKey query = None).
  { destruct (cityCache s !! cityKey query) as [c|] eqn:Hc; [|done].
    destruct (I2 (cityKey query)) as (r & p & Hr & _); [by rewrite Hc|]. congruence. }
  assert (Hfresh : cityPromises s !! nextPromise s = None).
  { destruct (cityPromises s !! nextPromise s) eqn:Hn; [|done].
    assert (nextPromise s < nextPromise s) by (apply I3; by rewrite Hn). lia. }
  repeat split; simpl.
  - intros request p Hp Hst.
    destruct (decide (request = nextPromise s)) as [->|Hne].
    + rewrite lookup_insert_eq in Hp. injection Hp as <-. simpl.
      apply lookup_insert_eq.
    + rewrite lookup_insert_ne in Hp by done.
      specialize (I1 request p Hp Hst).
      rewrite lookup_insert_ne; [done|]. intros Heq. congruence.
  - intros key Hkey.
    destruct (I2 key Hkey) as (r & p & Hr & Hp & Hst).
    exists r, p. assert (key <> cityKey query).
    { intros ->. destruct Hkey as [c Hc]. congruence. }
    rewrite lookup_insert_ne by done. split; [done|]. split; [|done].
    rewrite lookup_insert_ne; [done|]. intros <-. congruence.
  - intros request [p Hp].
    destruct (decide (request = nextPromise s)) as [->|Hne]; [lia|].
    rewrite lookup_insert_ne in Hp by done.
    assert (request < nextPromise s) by (apply I3; by rewrite Hp). lia.
Qed.

Lemma cityCoalesced_fetchWeatherData now lat' lon' sig s :
  cityCoalesced s -> cityCoalesced (fetchWeatherData now lat' lon' sig s).2.
Proof.
  intros Hinv. unfold fetchWeatherData.
  destruct (live now _); [done|].
  destruct (pendingWeatherRequests s !! weatherKey lat' lon'); [done|].
  revert Hinv. apply cityCoalesced_frame; simpl; try done. lia.
Qed.

Lemma cityCoalesced_cityFulfilled now request responseList s :
  cityCoalesced s -> cityCoalesced (cityFulfilled now request responseList s).
Proof.
  intros Hinv. unfold cityFulfilled.
  destruct (cityPromises s !! request) as [p0|] eqn:Hp0; [|done].
  destruct (isPending (state p0)) eqn:Hst0; [|done].
  apply isPending_Pending in Hst0.
  destruct Hinv as (I1 & I2 & I3).
  pose proof (I1 request p0 Hp0 Hst0) as Hreg.
  repeat split; simpl.
  - intros r p Hp Hst.
    destruct (decide (r = request)) as [->|Hne].
    + rewrite lookup_insert_eq in Hp. injection Hp as <-. discriminate.
    + rewrite lookup_insert_ne in Hp by done. now apply I1.
  - intros key Hkey.
    destruct (decide (key = cacheKey p0)) as [->|Hne].
    + exists request, (settled (Fulfilled (map toCity responseList)) p0).
      split; [done|]. split; [apply lookup_insert_eq | done].
    + rewrite lookup_insert_ne in Hkey by done.
      destruct (I2 key Hkey) as (r & p & Hr & Hp & Hst).
      exists r, p. split; [done|]. split; [|done].
      rewrite lookup_insert_ne; [done|]. intros <-.
      rewrite Hp0 in Hp. injection Hp as <-. rewrite Hst0 in Hst. discriminate.
  - intros r [p Hp].
    destruct (decide (r = request)) as [->|Hne].
    + apply I3. by rewrite Hp0.
    + rewrite lookup_insert_ne in Hp by done. apply I3. by rewrite Hp.
Qed.

Lemma cityCoalesced_cityRejected request err s :
  cityCoalesced s -> cityCoalesced (cityRejected request err s).
Proof.
  intros Hinv. unfold cityRejected.
  destruct (cityPromises s !! request) as [p0|] eqn:Hp0; [|done].
  destruct (isPending (state p0)) eqn:Hst0; [|done].
  apply isPending_Pending in Hst0.
  destruct Hinv as (I1 & I2 & I3).
  pose proof (I1 request p0 Hp0 Hst0) as Hreg.
  repeat split; simpl.
  - intros r p Hp Hst.
    destruct (decide (r = request)) as [->|Hne].
    + rewrite lookup_insert_eq in Hp. injection Hp as <-. discriminate.
    + rewrite lookup_insert_ne in Hp by done.
      specialize (I1 r p Hp Hst).
      rewrite lookup_delete_ne; [done|]. intros Heq.
      rewrite Heq in Hreg. congruence.
  - intros key Hkey.
    destruct (I2 key Hkey) as (r & p & Hr & Hp & Hst).
    assert (r <> request).
    { intros ->. rewrite Hp0 in Hp. injection Hp as <-.
      rewrite Hst0 in Hst. discriminate. }
    exists r, p. split.
    + rewrite lookup_delete_ne; [done|]. intros <-. congruence.
    + split; [|done]. now rewrite lookup_insert_ne.
  - intros r [p Hp].
    destruct (decide (r = request)) as [->|Hne].
    + apply I3. by rewrite Hp0.
    + rewrite lookup_insert_ne in Hp by done. apply I3. by rewrite Hp.
Qed.

Lemma cityCoalesced_weatherFulfilled now request current fc air s :
  cityCoalesced s -> cityCoalesced (weatherFulfilled now request current fc air s).
Proof.
  unfold weatherFulfilled. destruct (weatherPromises s !! request) as [p|]; [|done].
  destruct (isPending (state p)); [|done]. now apply cityCoalesced_frame.
Qed.

Lemma cityCoalesced_weatherRejected request err s :
  cityCoalesced s -> cityCoalesced (weatherRejected request err s).
Proof.
  unfold weatherRejected. destruct (weatherPromises s !! request) as [p|]; [|done].
  destruct (isPending (state p)); [|done]. now apply cityCoalesced_frame.
Qed.

Lemma cityCoalesced_step e s :
  isClearCache e = false -> cityCoalesced s -> cityCoalesced (step e s).
Proof.
  destruct e; simpl; intros He Hinv; try discriminate.
  - now apply cityCoalesced_fetchWeatherData.
  - now apply cityCoalesced_searchCities.
  - now apply cityCoalesced_weatherFulfilled.
  - now apply cityCoalesced_weatherRejected.
  - now apply cityCoalesced_cityFulfilled.
  - now apply cityCoalesced_cityRejected.
  - apply abortSignal_preserves; [| |done].
    + intros. now apply cityCoalesced_weatherRejected.
    + intros. now apply cityCoalesced_cityRejected.
  - destruct Hinv as (I1 & I2 & I3). repeat split; simpl; [done| |done].
    intros key [c Hc]. apply map_lookup_filter_Some in Hc as [Hc _].
    apply I2. by rewrite Hc.
Qed.

Lemma cityCoalesced_run evs :
  forallb (fun e => negb (isClearCache e)) evs = true ->
  cityCoalesced (run evs initialApi).
Proof.
  induction evs as [|e evs IH] using rev_ind; intros Hevs.
  - apply cityCoalesced_initial.
  - rewrite forallb_app in Hevs. apply andb_true_iff in Hevs as [Hevs He].
    simpl in He. rewrite andb_true_r, negb_true_iff in He.
    rewrite run_snoc. apply cityCoalesced_step; [done | now apply IH].
Qed.

(** X16: as long as [clearCache] is not called, at most one search per
    cache key is in flight, and a search for a query whose request is in
    flight gets that same request and issues nothing. *)
Theorem search_coalescing_without_clearCache (evs : list Event) :
  forallb (fun e => negb (isClearCache e)) evs = true ->
  let s := run evs initialApi in
  (forall key p q, cityInFlight s p key -> cityInFlight s q key -> p = q)
  /\ (forall now query sig request,
        3 <= length (trim query) ->
        cityInFlight s request (cityKey query) ->
        searchCities now query sig s = (Awaits request Joined, s)).
Proof.
  intros Hevs s. pose proof (cityCoalesced_run evs Hevs) as Hinv. fold s in Hinv.
  destruct Hinv as (I1 & I2 & _). split.
  - intros key p q (pp & Hp & Hkp & Hsp) (pq & Hq & Hkq & Hsq).
    pose proof (I1 p pp Hp Hsp) as H1. pose proof (I1 q pq Hq Hsq) as H2.
    rewrite Hkp in H1. rewrite Hkq in H2. congruence.
  - intros now query sig request Hlen (p & Hp & Hkey & Hst).
    unfold searchCities. rewrite (long_query_truthy _ Hlen). simpl.
    destruct (Nat.ltb_spec (length (trim query)) 3); [lia|].
    pose proof (I1 request p Hp Hst) as Hreg. rewrite Hkey in Hreg.
    assert (Hcache : cityCache s !! cityKey query = None).
    { destruct (cityCache s !! cityKey query) as [c|] eqn:Hc; [|done].
      destruct (I2 (cityKey query)) as (r & p' & Hr & Hp' & Hst');
        [by rewrite Hc|].
      rewrite Hreg in Hr. injection Hr as <-. rewrite Hp in Hp'.
      injection Hp' as <-. rewrite Hst in Hst'. discriminate. }
    rewrite Hcache. simpl. now rewrite Hreg.
Qed.

(** X17: as long as [clearCache] is not called, removing cache entries
    with [clearCacheByPattern] does not make a cached key be fetched again:
    the next call for it, at any time, issues no HTTP call and leaves the
    tables as they are. The same for a cached search. *)
Theorem clearCacheByPattern_never_refetches (evs : list Event)
    (pattern : jsstring) (now : Z) (sig : option Signal) :
  forallb (fun e => negb (isClearCache e)) evs = true ->
  let s := run evs initialApi in
  let s' := clearCacheByPattern pattern s in
  (forall lat' lon',
     is_Some (weatherCache s !! weatherKey lat' lon') ->
     (fetchWeatherData now lat' lon' sig s').2 = s')
  /\ (forall query,
        is_Some (cityCache s !! cityKey query) ->
        (searchCities now query sig s').2 = s').
Proof.
  intros Hevs s s'.
  destruct (coalesced_run evs Hevs) as (_ & W2 & _).
  destruct (cityCoalesced_run evs Hevs) as (_ & C2 & _).
  fold s in W2, C2. split.
  - intros lat' lon' Hc. destruct (W2 _ Hc) as (r & p & Hr & _).
    unfold fetchWeatherData. destruct (live now _); [done|].
    subst s'. simpl. now rewrite Hr.
  - intros query Hc. destruct (C2 _ Hc) as (r & p & Hr & _).
    unfold searchCities. destruct (_ || _); [done|].
    destruct (live now _); [done|]. subst s'. simpl. now rewrite Hr.
Qed.

(** *** What holds in every reachable state *)

Lemma sound_initial : sound initialApi.
Proof.
  repeat split; simpl; intros *.
  all: try (intros [? Hx]; now rewrite lookup_empty in Hx).
  all: try (intros Hx; now rewrite lookup_empty in Hx).
Qed.

Lemma is_Some_insert_inv {A} (heap : gmap PromiseId A) r x q :
  is_Some (<[r := x]> heap !! q) -> q = r \/ is_Some (heap !! q).
Proof.
  destruct (decide (q = r)) as [->|Hne]; [by left|].
  rewrite lookup_insert_ne by done. by right.
Qed.

Lemma sound_fetchWeatherData now lat' lon' sig s :
  sound s -> sound (fetchWeatherData now lat' lon' sig s).2.
Proof.
  intros Hs. unfold fetchWeatherData.
  destruct (live now _); [done|].
  destruct (pendingWeatherRequests s !! weatherKey lat' lon'); [done|].
  destruct Hs as ((Fw & Fc) & Hacc & (Pw & Pc) & (Kw & Kc)). simpl.
  assert (Hnew : weatherPromises s !! nextPromise s = None).
  { destruct (weatherPromises s !! nextPromise s) eqn:Hn; [|done].
    assert (nextPromise s < nextPromise s) by (apply Fw; by rewrite Hn). lia. }
  split; [|split; [|split]].
  - split; simpl.
    + intros r Hr. apply is_Some_insert_inv in Hr as [->|Hr]; [lia|].
      specialize (Fw r Hr). lia.
    + intros r Hr. specialize (Fc r Hr). lia.
  - unfold accounted in *. simpl.
    rewrite length_app, map_size_insert_None by done. simpl. lia.
  - split; simpl; [|done].
    intros key c Hc. destruct (Pw key c Hc) as (r & p & Hr & Hk & Hst).
    exists r, p. split; [|done]. rewrite lookup_insert_ne; [done|].
    intros <-. congruence.
  - split; simpl; [|done].
    intros r p Hp. destruct (decide (r = nextPromise s)) as [->|Hne].
    + rewrite lookup_insert_eq in Hp. injection Hp as <-. cbn [cacheKey].
      unfold weatherKey. apply startsWith_app.
    + rewrite lookup_insert_ne in Hp by done. by apply (Kw r).
Qed.

Lemma sound_searchCities now query sig s :
  sound s -> sound (searchCities now query sig s).2.
Proof.
  intros Hs. unfold searchCities.
  destruct (_ || _); [done|].
  destruct (live now _); [done|].
  destruct (pendingCityRequests s !! cityKey query); [done|].
  destruct Hs as ((Fw & Fc) & Hacc & (Pw & Pc) & (Kw & Kc)). simpl.
  assert (Hnew : cityPromises s !! nextPromise s = None).
  { destruct (cityPromises s !! nextPromise s) eqn:Hn; [|done].
    assert (nextPromise s < nextPromise s) by (apply Fc; by rewrite Hn). lia. }
  split; [|split; [|split]].
  - split; simpl.
    + intros r Hr. specialize (Fw r Hr). lia.
    + intros r Hr. apply is_Some_insert_inv in Hr as [->|Hr]; [lia|].
      specialize (Fc r Hr). lia.
  - unfold accounted in *. simpl.
    rewrite length_app, map_size_insert_None by done. simpl. lia.
  - split; simpl; [done|].
    intros key c Hc. destruct (Pc key c Hc) as (r & p & Hr & Hk & Hst).
    exists r, p. split; [|done]. rewrite lookup_insert_ne; [done|].
    intros <-. congruence.
  - split; simpl; [done|].
    intros r p Hp. destruct (decide (r = nextPromise s)) as [->|Hne].
    + rewrite lookup_insert_eq in Hp. injection Hp as <-. cbn [cacheKey].
      unfold cityKey. apply startsWith_app.
    + rewrite lookup_insert_ne in Hp by done. by apply (Kc r).
Qed.

Lemma sound_weatherFulfilled now request current fc air s :
  sound s -> sound (weatherFulfilled now request current fc air s).
Proof.
  intros Hs. unfold weatherFulfilled.
  destruct (weatherPromises s !! request) as [p0|] eqn:Hp0; [|done].
  destruct (isPending (state p0)) eqn:Hst0; [|done].
  apply isPending_Pending in Hst0.
  destruct Hs as ((Fw & Fc) & Hacc & (Pw & Pc) & (Kw & Kc)).
  split; [|split; [|split]].
  - split; simpl; [|done].
    intros r Hr. apply is_Some_insert_inv in Hr as [->|Hr]; apply Fw; [by rewrite Hp0|done].
  - unfold accounted in *. simpl. rewrite map_size_insert_Some; [done|by rewrite Hp0].
  - split; simpl; [|done].
    intros key c Hc. destruct (decide (key = cacheKey p0)) as [->|Hne].
    + rewrite lookup_insert_eq in Hc. injection Hc as <-.
      eexists request, _. split; [apply lookup_insert_eq|done].
    + rewrite lookup_insert_ne in Hc by done.
      destruct (Pw key c Hc) as (r & p & Hr & Hk & Hst).
      exists r, p. split; [|done]. rewrite lookup_insert_ne; [done|].
      intros <-. rewrite Hp0 in Hr. injection Hr as <-. congruence.
  - split; simpl; [|done].
    intros r p Hp. destruct (decide (r = request)) as [->|Hne].
    + rewrite lookup_insert_eq in Hp. injection Hp as <-. simpl. by apply (Kw request).
    + rewrite lookup_insert_ne in Hp by done. by apply (Kw r).
Qed.

Lemma sound_weatherRejected request err s :
  sound s -> sound (weatherRejected request err s).
Proof.
  intros Hs. unfold weatherRejected.
  destruct (weatherPromises s !! request) as [p0|] eqn:Hp0; [|done].
  destruct (isPending (state p0)) eqn:Hst0; [|done].
  apply isPending_Pending in Hst0.
  destruct Hs as ((Fw & Fc) & Hacc & (Pw & Pc) & (Kw & Kc)).
  split; [|split; [|split]].
  - split; simpl; [|done].
    intros r Hr. apply is_Some_insert_inv in Hr as [->|Hr]; apply Fw; [by rewrite Hp0|done].
  - unfold accounted in *. simpl. rewrite map_size_insert_Some; [done|by rewrite Hp0].
  - split; simpl; [|done].
    intros key c Hc. destruct (Pw key c Hc) as (r & p & Hr & Hk & Hst).
    exists r, p. split; [|done]. rewrite lookup_insert_ne; [done|].
    intros <-. rewrite Hp0 in Hr. injection Hr as <-. congruence.
  - split; simpl; [|done].
    intros r p Hp. destruct (decide (r = request)) as [->|Hne].
    + rewrite lookup_insert_eq in Hp. injection Hp as <-. simpl. by apply (Kw request).
    + rewrite lookup_insert_ne in Hp by done. by apply (Kw r).
Qed.

Lemma sound_cityFulfilled now request responseList s :
  sound s -> sound (cityFulfilled now request responseList s).
Proof.
  intros Hs. unfold cityFulfilled.
  destruct (cityPromises s !! request) as [p0|] eqn:Hp0; [|done].
  destruct (isPending (state p0)) eqn:Hst0; [|done].
  apply isPending_Pending in Hst0.
  destruct Hs as ((Fw & Fc) & Hacc & (Pw & Pc) & (Kw & Kc)).
  split; [|split; [|split]].
  - split; simpl; [done|].
    intros r Hr. apply is_Some_insert_inv in Hr as [->|Hr]; apply Fc; [by rewrite Hp0|done].
  - unfold accounted in *. simpl. rewrite map_size_insert_Some; [done|by rewrite Hp0].
  - split; simpl; [done|].
    intros key c Hc. destruct (decide (key = cacheKey p0)) as [->|Hne].
    + rewrite lookup_insert_eq in Hc. injection Hc as <-.
      eexists request, _. split; [apply lookup_insert_eq|done].
    + rewrite lookup_insert_ne in Hc by done.
      destruct (Pc key c Hc) as (r & p & Hr & Hk & Hst).
      exists r, p. split; [|done]. rewrite lookup_insert_ne; [done|].
      intros <-. rewrite Hp0 in Hr. injection Hr as <-. congruence.
  - split; simpl; [done|].
    intros r p Hp. destruct (decide (r = request)) as [->|Hne].
    + rewrite lookup_insert_eq in Hp. injection Hp as <-. simpl. by apply (Kc request).
    + rewrite lookup_insert_ne in Hp by done. by apply (Kc r).
Qed.

Lemma sound_cityRejected request err s :
  sound s -> sound (cityRejected request err s).
Proof.
  intros Hs. unfold cityRejected.
  destruct (cityPromises s !! request) as [p0|] eqn:Hp0; [|done].
  destruct (isPending (state p0)) eqn:Hst0; [|done].
  apply isPending_Pending in Hst0.
  destruct Hs as ((Fw & Fc) & Hacc & (Pw & Pc) & (Kw & Kc)).
  split; [|split; [|split]].
  - split; simpl; [done|].
    intros r Hr. apply is_Some_insert_inv in Hr as [->|Hr]; apply Fc; [by rewrite Hp0|done].
  - unfold accounted in *. simpl. rewrite map_size_insert_Some; [done|by rewrite Hp0].
  - split; simpl; [done|].
    intros key c Hc. destruct (Pc key c Hc) as (r & p & Hr & Hk & Hst).
    exists r, p. split; [|done]. rewrite lookup_insert_ne; [done|].
    intros <-. rewrite Hp0 in Hr. injection Hr as <-. congruence.
  - split; simpl; [done|].
    intros r p Hp. destruct (decide (r = request)) as [->|Hne].
    + rewrite lookup_insert_eq in Hp. injection Hp as <-. simpl. by apply (Kc request).
    + rewrite lookup_insert_ne in Hp by done. by apply (Kc r).
Qed.

Lemma sound_step e s : sound s -> sound (step e s).
Proof.
  destruct e; simpl; intros Hs.
  - now apply sound_fetchWeatherData.
  - now apply sound_searchCities.
  - now apply sound_weatherFulfilled.
  - now apply sound_weatherRejected.
  - now apply sound_cityFulfilled.
  - now apply sound_cityRejected.
  - apply abortSignal_preserves; [| |done].
    + intros. now apply sound_weatherRejected.
    + intros. now apply sound_cityRejected.
  - destruct Hs as (Hf & Hacc & _ & Hk). repeat split; try apply Hf; try apply Hk; try done.
    all: simpl; intros key c Hc; now rewrite lookup_empty in Hc.
  - destruct Hs as (Hf & Hacc & (Pw & Pc) & Hk).
    repeat split; try apply Hf; try apply Hk; try done.
    all: simpl; intros key c Hc; apply map_lookup_filter_Some in Hc as [Hc _].
    + now apply Pw.
    + now apply Pc.
Qed.

Lemma sound_run evs : sound (run evs initialApi).
Proof.
  induction evs as [|e evs IH] using rev_ind; [apply sound_initial|].
  rewrite run_snoc. now apply sound_step.
Qed.

(** X18: in every reachable state the HTTP log has exactly three calls
    for each weather request ever created and one for each search; cache
    hits, joined calls, settlements, aborts and cache administration issue
    none. *)
Theorem http_calls_accounted (evs : list Event) :
  let s := run evs initialApi in
  length (httpLog s) = 3 * size (weatherPromises s) + size (cityPromises s).
Proof. intros s. apply (sound_run evs). Qed.

(** X19: in every reachable state each cache entry is the value with
    which a request for that very key was fulfilled: nothing else is ever
    written into the caches, and a failed or pending request contributes
    nothing. *)
Theorem cache_holds_fulfilled_results (evs : list Event) (key : jsstring) :
  let s := run evs initialApi in
  (forall c, weatherCache s !! key = Some c ->
             exists request p, weatherPromises s !! request = Some p
                               /\ cacheKey p = key /\ state p = Fulfilled (data c))
  /\ (forall c, cityCache s !! key = Some c ->
                exists request p, cityPromises s !! request = Some p
                                  /\ cacheKey p = key /\ state p = Fulfilled (data c)).
Proof.
  intros s. destruct (sound_run evs) as (_ & _ & (Pw & Pc) & _).
  split; intros c Hc; [now apply Pw | now apply Pc].
Qed.

Lemma startsWith_includes key p : startsWith key p = true -> includes key p = true.
Proof. intros Hp. destruct key; simpl in *; now rewrite Hp. Qed.

Lemma cached_keys_prefixed evs key :
  let s := run evs initialApi in
  (is_Some (weatherCache s !! key) -> startsWith key (lit "weather-") = true)
  /\ (is_Some (cityCache s !! key) -> startsWith key (lit "cities-") = true).
Proof.
  intros s. destruct (sound_run evs) as (_ & _ & (Pw & Pc) & (Kw & Kc)).
  split; intros [c Hc].
  - destruct (Pw key c Hc) as (r & p & Hr & <- & _). now apply (Kw r).
  - destruct (Pc key c Hc) as (r & p & Hr & <- & _). now apply (Kc r).
Qed.

(** X20: in every reachable state, [clearCacheByPattern("weather-")]
    empties the weather cache and [clearCacheByPattern("cities-")] empties
    the city cache; the former keeps the cached result of every search
    whose query does not itself contain "weather-". *)
Theorem clearCacheByPattern_by_table (evs : list Event) :
  let s := run evs initialApi in
  weatherCache (clearCacheByPattern (lit "weather-") s) = ∅
  /\ cityCache (clearCacheByPattern (lit "cities-") s) = ∅
  /\ (forall query,
        includes query (lit "weather-") = false ->
        cityCache (clearCacheByPattern (lit "weather-") s) !! cityKey query
        = cityCache s !! cityKey query).
Proof.
  intros s. subst s. split; [|split].
  - apply map_empty. intros key. simpl. apply map_lookup_filter_None.
    right. intros c Hc. simpl.
    destruct (cached_keys_prefixed evs key) as [Hk _].
    rewrite startsWith_includes; [done|]. apply Hk. by rewrite Hc.
  - apply map_empty. intros key. simpl. apply map_lookup_filter_None.
    right. intros c Hc. simpl.
    destruct (cached_keys_prefixed evs key) as [_ Hk].
    rewrite startsWith_includes; [done|]. apply Hk. by rewrite Hc.
  - intros query Hq. simpl.
    assert (Hinc : includes (cityKey query) (lit "weather-") = false)
      by (destruct query; exact Hq).
    destruct (cityCache (run evs initialApi) !! cityKey query) as [c|] eqn:Hc.
    + now apply map_lookup_filter_Some.
    + apply map_lookup_filter_None. now left.
Qed.

Lemma prefixes_differ key :
  startsWith key (lit "weather-") = true -> startsWith key (lit "cities-") = true ->
  False.
Proof.
  intros [b ->]%startsWith_spec [b' Hb']%startsWith_spec.
  simpl in Hb'. discriminate Hb'.
Qed.

(** X21: in every reachable state the statistics are consistent: [size]
    is the number of reported keys, no key is reported twice, and a key
    is reported exactly when one of the two caches has an entry for it,
    expired or not. After [clearCache] they are zero and empty. *)
Theorem getCacheStats_consistent (evs : list Event) :
  let s := run evs initialApi in
  (getCacheStats s).1 = length (getCacheStats s).2
  /\ NoDup (getCacheStats s).2
  /\ (forall key, key ∈ (getCacheStats s).2
                  <-> is_Some (weatherCache s !! key) \/ is_Some (cityCache s !! key))
  /\ getCacheStats (clearCache s) = (0, []).
Proof.
  intros s. subst s. unfold getCacheStats. simpl.
  assert (Hmem : forall A (m : gmap jsstring A) key,
            key ∈ (map_to_list m).*1 <-> is_Some (m !! key)).
  { intros A m key. rewrite list_elem_of_fmap. split.
    - intros ([k c] & -> & Hin). apply elem_of_map_to_list in Hin. by exists c.
    - intros [c Hc]. exists (key, c). split; [done|]. now apply elem_of_map_to_list. }
  split; [|split; [|split]].
  - now rewrite length_app, !length_fmap, !length_map_to_list.
  - apply NoDup_app. split; [apply NoDup_fst_map_to_list|].
    split; [|apply NoDup_fst_map_to_list].
    intros key Hw Hc. apply Hmem in Hw, Hc.
    destruct (cached_keys_prefixed evs key) as [Kw Kc].
    exact (prefixes_differ key (Kw Hw) (Kc Hc)).
  - intros key. rewrite elem_of_app, !Hmem. reflexivity.
  - now rewrite !map_to_list_empty.
Qed.

(** *** The reach of an abort *)

Lemma carrying_elem_inv {A} (sig : Signal) (heap : gmap PromiseId (Promise A)) request :
  request ∈ carrying sig heap ->
  exists p, heap !! request = Some p /\ signal p = Some sig.
Proof.
  unfold carrying. rewrite list_elem_of_fmap. intros ([r p] & -> & Hin).
  apply elem_of_map_to_list, map_lookup_filter_Some in Hin as [Hp Hsig].
  by exists p.
Qed.

Lemma weatherRejected_all_other err ids s request :
  request ∉ ids ->
  weatherPromises (foldr (fun r acc => weatherRejected r err acc) s ids) !! request
  = weatherPromises s !! request.
Proof.
  induction ids as [|r ids IH]; simpl; [done|].
  intros Hout. apply not_elem_of_cons in Hout as [Hne Hout].
  rewrite weatherRejected_other by done. now apply IH.
Qed.

Lemma cityRejected_all_other err ids s request :
  request ∉ ids ->
  cityPromises (foldr (fun r acc => cityRejected r err acc) s ids) !! request
  = cityPromises s !! request.
Proof.
  induction ids as [|r ids IH]; simpl; [done|].
  intros Hout. apply not_elem_of_cons in Hout as [Hne Hout].
  rewrite cityRejected_other by done. now apply IH.
Qed.

Lemma carrying_nil {A} (sig : Signal) (heap : gmap PromiseId (Promise A)) :
  (forall request p, heap !! request = Some p -> signal p <> Some sig) ->
  carrying sig heap = [].
Proof.
  intros Hnone. apply elem_of_nil_inv. intros request Hin.
  apply carrying_elem_inv in Hin as (p & Hp & Hsig). now apply (Hnone request p).
Qed.

(** X22: firing a signal settles no request that was issued with another
    signal or with none, whatever error the client rejects with; it writes
    nothing into the caches and issues no HTTP call; and when no request
    was issued with the signal (it was only passed to calls answered from
    the cache or joined to a pending request, which leave the tables as
    they are), firing it changes nothing at all. *)
Theorem abort_spares_other_requests (sig : Signal) (s : ApiState) :
  let s' := abortSignal sig s in
  (forall request p,
     weatherPromises s !! request = Some p -> signal p <> Some sig ->
     weatherPromises s' !! request = Some p)
  /\ (forall request p,
        cityPromises s !! request = Some p -> signal p <> Some sig ->
        cityPromises s' !! request = Some p)
  /\ weatherCache s' = weatherCache s
  /\ cityCache s' = cityCache s
  /\ httpLog s' = httpLog s
  /\ ((forall request p, weatherPromises s !! request = Some p -> signal p <> Some sig) ->
      (forall request p, cityPromises s !! request = Some p -> signal p <> Some sig) ->
      s' = s).
Proof.
  intros s'.
  set (s1 := foldr (fun r acc => weatherRejected r abortReason acc) s
               (carrying sig (weatherPromises s))).
  assert (Hs' : s' = foldr (fun r acc => cityRejected r abortReason acc) s1
                       (carrying sig (cityPromises s))) by reflexivity.
  destruct (cityRejected_all_frame abortReason (carrying sig (cityPromises s)) s1)
    as (Hcc & Hwc & _ & Hwp & _ & Hlog).
  destruct (weatherRejected_all_frame abortReason (carrying sig (weatherPromises s)) s)
    as (Hwc1 & Hcc1 & _ & Hcp1 & _ & Hlog1).
  fold s1 in Hwc1, Hcc1, Hcp1, Hlog1. rewrite <- Hs' in Hcc, Hwc, Hwp, Hlog.
  split; [|split; [|split; [|split; [|split]]]].
  - intros request p Hp Hsig. rewrite Hwp. unfold s1.
    rewrite weatherRejected_all_other; [done|].
    intros Hin. apply carrying_elem_inv in Hin as (p' & Hp' & Hsig'). congruence.
  - intros request p Hp Hsig. rewrite Hs'.
    rewrite cityRejected_all_other; [by rewrite Hcp1|].
    intros Hin. apply carrying_elem_inv in Hin as (p' & Hp' & Hsig'). congruence.
  - congruence.
  - congruence.
  - congruence.
  - intros Hw Hc. rewrite Hs'. unfold s1.
    now rewrite (carrying_nil sig _ Hw), (carrying_nil sig _ Hc).
Qed.

End ApiMore.

Section ApiExpiry.
Context `{Runtime}.

(** X23: from [timestamp + CACHE_DURATION] on, a cache entry is not
    served: neither a weather call nor a search (of at least 3 trimmed
    characters) for its key returns a value straight from the cache. *)
Theorem expired_entries_not_served (now : Z) (sig : option Signal) (s : ApiState) :
  (forall lat' lon' c,
     weatherCache s !! weatherKey lat' lon' = Some c ->
     (timestamp c + CACHE_DURATION <= now)%Z ->
     forall cachedData, (fetchWeatherData now lat' lon' sig s).1 <> Returned cachedData)
  /\ (forall query c,
        3 <= length (trim query) ->
        cityCache s !! cityKey query = Some c ->
        (timestamp c + CACHE_DURATION <= now)%Z ->
        forall cachedData, (searchCities now query sig s).1 <> Returned cachedData).
Proof.
  split.
  - intros lat' lon' c Hc Hlate. now apply expired_entry_not_served with c.
  - intros query c Hlen Hc Hlate cachedData. unfold searchCities.
    rewrite (long_query_truthy _ Hlen). simpl.
    destruct (Nat.ltb_spec (length (trim query)) 3); [lia|].
    rewrite Hc, live_expired by done.
    now destruct (pendingCityRequests s !! cityKey query).
Qed.

(** X24: as long as [clearCache] is not called, a key that once got a
    cache entry is never requested from the network again: every later
    call for it, before or after expiry, leaves the tables and the HTTP log
    as they are. The same for a search. *)
Theorem cached_key_never_fetched_again (evs : list Event) (now : Z)
    (sig : option Signal) :
  forallb (fun e => negb (isClearCache e)) evs = true ->
  let s := run evs initialApi in
  (forall lat' lon',
     is_Some (weatherCache s !! weatherKey lat' lon') ->
     (fetchWeatherData now lat' lon' sig s).2 = s)
  /\ (forall query,
        is_Some (cityCache s !! cityKey query) ->
        (searchCities now query sig s).2 = s).
Proof.
  intros Hevs s. split.
  - intros lat' lon' Hc. apply cached_key_never_refetched; [|done].
    now apply coalesced_run.
  - intros query Hc.
    destruct (cityCoalesced_run evs Hevs) as (_ & C2 & _). fold s in C2.
    destruct (C2 _ Hc) as (r & p & Hr & _).
    unfold searchCities. destruct (_ || _); [done|].
    destruct (live now _); [done|]. now rewrite Hr.
Qed.

End ApiExpiry.

Section ApiAbort.
Context `{Runtime}.


End ApiAbort.

(* ===================================================================== *)
(** ** Further worked executions *)
(* ===================================================================== *)

Ltac in_flight p :=
  exists p; split; [vm_compute; reflexivity | split; vm_compute; reflexivity].

Lemma handleError_result_witness :
  errName (handleError notFoundError) = lit "Error"
  /\ errMessage (handleError notFoundError) = lit "city not found".
Proof.
  destruct (handleError_result notFoundError) as [_ Hrest].
  destruct (Hrest eq_refl) as (Hname & _ & _ & Hmsg).
  split; [exact Hname|]. now apply Hmsg.
Defined.

Lemma weather_cache_hit_witness :
  let s := (@fetchWeatherData sampleRuntime 0 12.9 77.6 None initialApi).2 in
  let s' := weatherFulfilled 1000 0 (lit "clear") (lit "5 days") (lit "aqi 2") s in
  @fetchWeatherData sampleRuntime 200000 12.9 77.6 (Some 3) s'
  = (Returned {| currentWeather := lit "clear"; forecast := lit "5 days";
                 airPollution := lit "aqi 2" |}, s').
Proof.
  intros s s'.
  apply (@weather_cache_hit sampleRuntime 200000 1000 12.9 77.6 (Some 3) 0).
  - in_flight {| cacheKey := lit "weather-12.9-77.6"; signal := @None Signal;
                 state := @Pending WeatherData |}.
  - reflexivity.
Defined.

Lemma city_cache_hit_witness :
  let s := (searchCities 0 (lit "Paris") None initialApi).2 in
  let paris := {| pc_name := lit "Paris"; pc_sys_country := lit "FR";
                  pc_coord_lat := 48.8534; pc_coord_lon := 2.3488 |} in
  let s' := cityFulfilled 1000 0 [paris] s in
  searchCities 200000 (lit "Paris") None s'
  = (Returned [ {| name := lit "Paris"; country := lit "FR";
                   city_lat := 48.8534; city_lon := 2.3488 |} ], s').
Proof.
  intros s paris s'.
  apply (city_cache_hit 200000 1000 (lit "Paris") None 0 [paris] s).
  - vm_compute. lia.
  - in_flight {| cacheKey := lit "cities-Paris"; signal := @None Signal;
                 state := @Pending (list City) |}.
  - reflexivity.
Defined.

Lemma failed_request_can_be_retried_witness :
  let s := (@fetchWeatherData sampleRuntime 0 12.9 77.6 None initialApi).2 in
  let s' := weatherRejected 0 notFoundError s in
  pendingWeatherRequests s' !! @weatherKey sampleRuntime 12.9 77.6 = None
  /\ (@fetchWeatherData sampleRuntime 5 12.9 77.6 None s').1 = Awaits 1 Originator.
Proof.
  intros s s'.
  destruct (@failed_request_can_be_retried sampleRuntime notFoundError 0 s) as [Hw _].
  destruct (Hw 12.9%float 77.6%float) as (_ & _ & Hfree & Hnext).
  { in_flight {| cacheKey := lit "weather-12.9-77.6"; signal := @None Signal;
                 state := @Pending WeatherData |}. }
  split; [exact Hfree|].
  apply (Hnext 5%Z None). vm_compute. reflexivity.
Defined.

Lemma clearCache_forces_network_witness :
  let s := cityFulfilled 1000 0 []
             (searchCities 0 (lit "Paris") None initialApi).2 in
  (searchCities 1001 (lit "Paris") None s).1 = Returned []
  /\ (searchCities 1001 (lit "Paris") None (clearCache s)).1 = Awaits 1 Originator.
Proof.
  intros s. split; [vm_compute; reflexivity|].
  destruct (@clearCache_forces_network sampleRuntime s 1001 None) as [_ Hc].
  apply (Hc (lit "Paris")). vm_compute. lia.
Defined.

Lemma clearCache_keeps_requests_running_witness :
  let s := (@fetchWeatherData sampleRuntime 0 12.9 77.6 None initialApi).2 in
  let s' := weatherFulfilled 1000 0 (lit "clear") (lit "5 days") (lit "aqi 2")
              (clearCache s) in
  timestamp <$> weatherCache s' !! lit "weather-12.9-77.6" = Some 1000%Z.
Proof.
  intros s s'.
  destruct (clearCache_keeps_requests_running s 0 (lit "weather-12.9-77.6") 1000
              (lit "clear") (lit "5 days") (lit "aqi 2")) as (_ & Hcache & _).
  { in_flight {| cacheKey := lit "weather-12.9-77.6"; signal := @None Signal;
                 state := @Pending WeatherData |}. }
  fold s' in Hcache. now rewrite Hcache.
Defined.

Lemma clearCacheByPattern_effect_witness :
  let s := cityFulfilled 3000 1 []
             (searchCities 2000 (lit "Par") None
                (weatherFulfilled 1000 0 (lit "clear") (lit "5 days") (lit "aqi 2")
                   (@fetchWeatherData sampleRuntime 0 12.9 77.6 None initialApi).2)).2 in
  let s' := clearCacheByPattern (lit "12.9") s in
  weatherCache s' !! lit "weather-12.9-77.6" = None
  /\ cityCache s' !! lit "cities-Par" = cityCache s !! lit "cities-Par".
Proof.
  intros s s'.
  destruct (clearCacheByPattern_effect (lit "12.9") (lit "weather-12.9-77.6") s)
    as (Hgone & _).
  destruct (clearCacheByPattern_effect (lit "12.9") (lit "cities-Par") s)
    as (_ & Hkept & _).
  split.
  - apply Hgone. by exists (lit "weather-"), (lit "-77.6").
  - apply Hkept. intros a b Heq.
    assert (Hinc : includes (lit "cities-Par") (lit "12.9") = true)
      by (apply includes_spec; by exists a, b).
    vm_compute in Hinc. discriminate Hinc.
Defined.

Lemma hint_implies_search_floor_witness :
  searchCities 0 (lit "Pa") None initialApi = (Returned [], initialApi).
Proof. apply hint_implies_search_floor. reflexivity. Defined.

Lemma search_coalescing_without_clearCache_witness :
  let s := @run sampleRuntime
             [ CallSearchCities 0 (lit "Paris") None;
               CallFetchWeather 1 12.9 77.6 None ] initialApi in
  searchCities 5 (lit "Paris") (Some 1) s = (Awaits 0 Joined, s).
Proof.
  intros s.
  apply (proj2 (@search_coalescing_without_clearCache sampleRuntime
                  [ CallSearchCities 0 (lit "Paris") None;
                    CallFetchWeather 1 12.9 77.6 None ] eq_refl)).
  - vm_compute. lia.
  - in_flight {| cacheKey := lit "cities-Paris"; signal := @None Signal;
                 state := @Pending (list City) |}.
Defined.

Lemma clearCacheByPattern_never_refetches_witness :
  let s := @run sampleRuntime
             [ CallFetchWeather 0 12.9 77.6 None;
               WeatherFulfilled 1000 0 (lit "clear") (lit "5 days") (lit "aqi 2") ]
             initialApi in
  let s' := clearCacheByPattern (lit "weather") s in
  weatherCache s' !! lit "weather-12.9-77.6" = None
  /\ (@fetchWeatherData sampleRuntime 2000 12.9 77.6 None s').2 = s'.
Proof.
  intros s s'. split; [vm_compute; reflexivity|].
  apply (proj1 (@clearCacheByPattern_never_refetches sampleRuntime
                  [ CallFetchWeather 0 12.9 77.6 None;
                    WeatherFulfilled 1000 0 (lit "clear") (lit "5 days") (lit "aqi 2") ]
                  (lit "weather") 2000 None eq_refl)).
  vm_compute. eauto.
Defined.

Lemma cache_holds_fulfilled_results_witness :
  let s := @run sampleRuntime
             [ CallFetchWeather 0 12.9 77.6 None;
               WeatherFulfilled 1000 0 (lit "clear") (lit "5 days") (lit "aqi 2") ]
             initialApi in
  exists request p,
    weatherPromises s !! request = Some p
    /\ cacheKey p = lit "weather-12.9-77.6"
    /\ state p = Fulfilled {| currentWeather := lit "clear"; forecast := lit "5 days";
                              airPollution := lit "aqi 2" |}.
Proof.
  intros s.
  apply (proj1 (@cache_holds_fulfilled_results sampleRuntime
                  [ CallFetchWeather 0 12.9 77.6 None;
                    WeatherFulfilled 1000 0 (lit "clear") (lit "5 days") (lit "aqi 2") ]
                  (lit "weather-12.9-77.6"))
               {| data := {| currentWeather := lit "clear"; forecast := lit "5 days";
                             airPollution := lit "aqi 2" |};
                  timestamp := 1000 |}).
  vm_compute. reflexivity.
Defined.

Lemma clearCacheByPattern_by_table_witness :
  let s := @run sampleRuntime
             [ CallSearchCities 0 (lit "Paris") None; CityFulfilled 1000 0 [] ]
             initialApi in
  cityCache (clearCacheByPattern (lit "weather-") s) !! lit "cities-Paris"
  = cityCache s !! lit "cities-Paris".
Proof.
  intros s.
  apply (proj2 (proj2 (@clearCacheByPattern_by_table sampleRuntime
                         [ CallSearchCities 0 (lit "Paris") None;
                           CityFulfilled 1000 0 [] ])) (lit "Paris")).
  reflexivity.
Defined.

Lemma abort_spares_other_requests_witness :
  let s := @run sampleRuntime
             [ CallFetchWeather 0 12.9 77.6 (Some 1);
               CallFetchWeather 1 12.9 77.6 (Some 2) ] initialApi in
  weatherPromises (@abortSignal sampleRuntime 2 s) !! 0
  = Some {| cacheKey := lit "weather-12.9-77.6"; signal := Some 1; state := Pending |}.
Proof.
  intros s.
  apply (proj1 (@abort_spares_other_requests sampleRuntime 2 s)).
  - vm_compute. reflexivity.
  - discriminate.
Defined.

Lemma expired_entries_not_served_witness :
  let s := @run sampleRuntime
             [ CallFetchWeather 0 12.9 77.6 None;
               WeatherFulfilled 1000 0 (lit "clear") (lit "5 days") (lit "aqi 2") ]
             initialApi in
  let snapshot := {| currentWeather := lit "clear"; forecast := lit "5 days";
                     airPollution := lit "aqi 2" |} in
  (@fetchWeatherData sampleRuntime 300999 12.9 77.6 None s).1 = Returned snapshot
  /\ (@fetchWeatherData sampleRuntime 301000 12.9 77.6 None s).1 <> Returned snapshot.
Proof.
  intros s snapshot. split; [vm_compute; reflexivity|].
  apply (proj1 (@expired_entries_not_served sampleRuntime 301000 None s)
           12.9%float 77.6%float {| data := snapshot; timestamp := 1000 |}).
  - vm_compute. reflexivity.
  - vm_compute. discriminate.
Defined.

Lemma cached_key_never_fetched_again_witness :
  let s := @run sampleRuntime
             [ CallFetchWeather 0 12.9 77.6 None;
               WeatherFulfilled 1000 0 (lit "clear") (lit "5 days") (lit "aqi 2") ]
             initialApi in
  (@fetchWeatherData sampleRuntime 86400000 12.9 77.6 None s).2 = s.
Proof.
  intros s.
  apply (proj1 (@cached_key_never_fetched_again sampleRuntime
                  [ CallFetchWeather 0 12.9 77.6 None;
                    WeatherFulfilled 1000 0 (lit "clear") (lit "5 days") (lit "aqi 2") ]
                  86400000 None eq_refl)).
  vm_compute. eauto.
Defined.


